(** * Recipe Finder: the search aggregator, filter engine, timer and
      favorites of [src/app.js] (class [PremiumRecipeFinderApp]).

    The JavaScript class keeps one mutable state bag ([this.state]) and a
    few fields next to it; every method is embedded here as a function from
    the application value before the call to the application value after
    it.  The browser (DOM containers, toasts, [setInterval] table,
    [Math.random], the network) is an explicit part of that value or an
    explicit argument. *)

From Stdlib Require Import ZArith Ascii String List Floats.PrimFloat.
From Stdlib Require Import DecimalString DecimalZ.
From stdpp Require Import base decidable option list sorting gmap strings.

Local Open Scope string_scope.
Local Open Scope Z_scope.
Local Open Scope list_scope.

(** ** Strings

    Strings are sequences of 8-bit characters.  [toLowerCase] and [trim]
    are [String.prototype.toLowerCase] and [String.prototype.trim] on the
    ASCII range: the letters [A]-[Z] are mapped to [a]-[z], and the white
    space stripped by [trim] is TAB, LF, VT, FF, CR and SPACE.  Characters
    above 127 are left alone, where the engine lowercases by the Unicode
    case mapping and also strips U+00A0, U+FEFF and the other Unicode
    spaces: on text outside ASCII the two functions of this module differ
    from the engine's.  The statements about ingredient tokens and
    instruction lines that would depend on that difference are therefore
    made for arbitrary [toLowerCase] and [trim] (see [addIngredient_with],
    [handleSearchKeydown] and [instructionSteps]), of which the functions
    of this module are one instance. *)
Module Str.

Definition lower_char (c : ascii) : ascii :=
  let n := N_of_ascii c in
  if ((65 <=? n) && (n <=? 90))%N then ascii_of_N (n + 32) else c.

Definition is_space (c : ascii) : bool :=
  let n := N_of_ascii c in
  ((9 <=? n) && (n <=? 13) || (n =? 32))%N.

Fixpoint trimStart_chars (l : list ascii) : list ascii :=
  match l with
  | c :: t => if is_space c then trimStart_chars t else l
  | [] => []
  end.

Definition trimEnd_chars (l : list ascii) : list ascii :=
  rev (trimStart_chars (rev l)).

Definition toLowerCase (s : string) : string :=
  string_of_list_ascii (map lower_char (list_ascii_of_string s)).

Definition trim (s : string) : string :=
  string_of_list_ascii
    (trimEnd_chars (trimStart_chars (list_ascii_of_string s))).

(** A JavaScript string is truthy exactly when it is not empty. *)
Definition truthy (s : string) : bool :=
  match s with EmptyString => false | String _ _ => true end.

(** A list that [trimStart] leaves alone: empty, or not starting with
    white space. *)
Definition starts_clean (l : list ascii) : Prop :=
  match l with
  | [] => True
  | c :: _ => is_space c = false
  end.

(** The characters of a normalised token. *)
Definition normal_chars (l : list ascii) : list ascii :=
  trimEnd_chars (trimStart_chars (map lower_char l)).

End Str.

(** ** The insertion-ordered [Set]

    [state.selectedIngredients] is a JavaScript [Set] whose enumeration
    order ([Array.from]) is observed by the search, so it is kept as the
    list of its members in insertion order.  [add] of a member leaves the
    set as it is; [delete] keeps the order of the others. *)
Module JSSet.

Definition t : Type := list string.

Definition empty : t := [].

Definition has (x : string) (s : t) : bool := bool_decide (x ∈ s).

Definition add (x : string) (s : t) : t :=
  if has x s then s else s ++ [x].

Definition delete (x : string) (s : t) : t :=
  filter (fun y => y ≠ x) s.

Definition size (s : t) : nat := length s.

(** [Array.from(s)]: the members in insertion order. *)
Definition to_array (s : t) : list string := s.

End JSSet.

(** ** Data model *)

(** A recipe summary as the catalog returns it.  [strCategory] and
    [strArea] may be missing from a summary. *)
Record RawRecipe : Type := mkRawRecipe {
  idMeal : string;
  strMeal : string;
  strMealThumb : string;
  strCategory : option string;
  strArea : option string
}.

(** [{...recipe, matchingIngredients: ...}] *)
Record AnnotatedRecipe : Type := mkAnnotated {
  recipe : RawRecipe;
  matchingIngredients : list string
}.

(** [state.currentFilter]; the empty string is an absent criterion. *)
Record FilterCriteria : Type := mkFilter {
  time : string;
  category : string;
  area : string
}.

(** [state.timerState]; [interval] is the handle [setInterval] returned,
    or [None] for [null]. *)
Record TimerState : Type := mkTimer {
  isRunning : bool;
  isPaused : bool;
  timeRemaining : Z;
  interval : option nat
}.

(** [this.state] *)
Record State : Type := mkState {
  selectedIngredients : JSSet.t;
  allRecipes : list AnnotatedRecipe;
  filteredRecipes : list AnnotatedRecipe;
  isLoading : bool;
  error : option string;
  currentFilter : FilterCriteria;
  favorites : gset string;
  currentServings : Z;
  timerState : TimerState
}.

(** Which of the four result containers the page shows
    ([hideAllStates] followed by un-hiding one of them). *)
Inductive Screen : Type :=
| EmptyScreen
| LoadingScreen
| ErrorScreen
| GridScreen.

(** What the application can observe or change in the browser: the
    visible container, the toasts shown so far (oldest first), the handles
    of the intervals that are scheduled and not cleared, and the handle
    the next [setInterval] call returns. *)
Record Browser : Type := mkBrowser {
  screen : Screen;
  toasts : list string;
  intervals : list nat;
  nextHandle : nat
}.

(** The application object: [this.state], [this.currentRecipe] and the
    browser it runs in. *)
Record App : Type := mkApp {
  state : State;
  currentRecipe : option RawRecipe;
  browser : Browser
}.

#[global] Instance RawRecipe_eq_dec : EqDecision RawRecipe.
Proof. solve_decision. Defined.

#[global] Instance AnnotatedRecipe_eq_dec : EqDecision AnnotatedRecipe.
Proof. solve_decision. Defined.

(** *** Field updates *)

Definition set_selectedIngredients (v : JSSet.t) (s : State) : State :=
  mkState v (allRecipes s) (filteredRecipes s) (isLoading s) (error s)
          (currentFilter s) (favorites s) (currentServings s) (timerState s).

Definition set_allRecipes (v : list AnnotatedRecipe) (s : State) : State :=
  mkState (selectedIngredients s) v (filteredRecipes s) (isLoading s)
          (error s) (currentFilter s) (favorites s) (currentServings s)
          (timerState s).

Definition set_filteredRecipes (v : list AnnotatedRecipe) (s : State) : State :=
  mkState (selectedIngredients s) (allRecipes s) v (isLoading s) (error s)
          (currentFilter s) (favorites s) (currentServings s) (timerState s).

Definition set_isLoading (v : bool) (s : State) : State :=
  mkState (selectedIngredients s) (allRecipes s) (filteredRecipes s) v
          (error s) (currentFilter s) (favorites s) (currentServings s)
          (timerState s).

Definition set_error (v : option string) (s : State) : State :=
  mkState (selectedIngredients s) (allRecipes s) (filteredRecipes s)
          (isLoading s) v (currentFilter s) (favorites s)
          (currentServings s) (timerState s).

Definition set_favorites (v : gset string) (s : State) : State :=
  mkState (selectedIngredients s) (allRecipes s) (filteredRecipes s)
          (isLoading s) (error s) (currentFilter s) v (currentServings s)
          (timerState s).

Definition set_timerState (v : TimerState) (s : State) : State :=
  mkState (selectedIngredients s) (allRecipes s) (filteredRecipes s)
          (isLoading s) (error s) (currentFilter s) (favorites s)
          (currentServings s) v.

Definition set_isRunning (v : bool) (t : TimerState) : TimerState :=
  mkTimer v (isPaused t) (timeRemaining t) (interval t).

Definition set_timeRemaining (v : Z) (t : TimerState) : TimerState :=
  mkTimer (isRunning t) (isPaused t) v (interval t).

Definition set_interval (v : option nat) (t : TimerState) : TimerState :=
  mkTimer (isRunning t) (isPaused t) (timeRemaining t) v.

Definition set_screen (v : Screen) (b : Browser) : Browser :=
  mkBrowser v (toasts b) (intervals b) (nextHandle b).

Definition with_state (f : State -> State) (a : App) : App :=
  mkApp (f (state a)) (currentRecipe a) (browser a).

Definition with_timer (f : TimerState -> TimerState) (a : App) : App :=
  with_state (fun s => set_timerState (f (timerState s)) s) a.

Definition with_browser (f : Browser -> Browser) (a : App) : App :=
  mkApp (state a) (currentRecipe a) (f (browser a)).

(** The state the constructor builds, after [init] has rendered the empty
    container. *)
Definition initial_state : State :=
  mkState JSSet.empty [] [] false None (mkFilter "" "" "") ∅ 4
          (mkTimer false false 0 None).

Definition initial_browser : Browser := mkBrowser EmptyScreen [] [] 1.

Definition initial_app : App := mkApp initial_state None initial_browser.

(** ** Rendering collaborator

    Each render method hides the four containers and shows one.  The
    page's elements are taken to exist (every [getElementById] guard
    succeeds). *)

Definition renderEmptyState (a : App) : App :=
  with_browser (set_screen EmptyScreen) a.

Definition renderLoadingState (a : App) : App :=
  with_browser (set_screen LoadingScreen) a.

Definition renderErrorState (a : App) : App :=
  with_browser (set_screen ErrorScreen) a.

Definition renderRecipeGrid (a : App) : App :=
  match filteredRecipes (state a) with
  | [] => renderErrorState a
  | _ :: _ => with_browser (set_screen GridScreen) a
  end.

(** [showToast(message)]: the toast is appended to the ones shown. *)
Definition showToast (message : string) (a : App) : App :=
  with_browser
    (fun b => mkBrowser (screen b) (toasts b ++ [message]) (intervals b)
                        (nextHandle b)) a.

(** ** Catalog client *)

(** The [meals] property of the parsed response body. *)
Inductive MealsField : Type :=
| MealsMissing
| MealsNull
| MealsArray (l : list RawRecipe).

(** The response body: text that is not JSON, the JSON value [null], or a
    JSON object. *)
Inductive Body : Type :=
| NotJson
| JsonNull
| JsonObject (meals : MealsField).

(** What the network does with one request. *)
Inductive FetchOutcome : Type :=
| NetworkFailure
| Response (ok : bool) (body : Body).

(** What a rejected promise carries. *)
Inductive Thrown : Type :=
| NetworkError
| HttpError (message : string)
| JsonSyntaxError
| NullDereference.

(** A settled promise. *)
Inductive Settled (A : Type) : Type :=
| Fulfilled (v : A)
| Rejected (e : Thrown).
Arguments Fulfilled {A} v.
Arguments Rejected {A} e.

Definition is_rejected {A} (p : Settled A) : bool :=
  match p with Rejected _ => true | Fulfilled _ => false end.

(** The catalog: the outcome of the filter-by-ingredient request for each
    ingredient. *)
Definition Catalog : Type := string -> FetchOutcome.

(** [data.meals || []] *)
Definition meals_or_empty (m : MealsField) : list RawRecipe :=
  match m with
  | MealsArray l => l
  | MealsMissing | MealsNull => []
  end.

Definition fetchRecipesByIngredient (net : Catalog) (ingredient : string)
  : Settled (list RawRecipe) :=
  match net ingredient with
  | NetworkFailure => Rejected NetworkError
  | Response ok body =>
      if negb ok then
        Rejected (HttpError (String.append "Failed to fetch recipes for " ingredient))
      else
        match body with
        | NotJson => Rejected JsonSyntaxError
        | JsonNull => Rejected NullDereference
        | JsonObject meals => Fulfilled (meals_or_empty meals)
        end
  end.

(** [Promise.all]: fulfilled with the values in the order of the promises
    when all are fulfilled, rejected as soon as one is.  The rejection
    reported here is the first in the order of the promises; the only
    caller discards it. *)
Fixpoint Promise_all {A} (ps : list (Settled A)) : Settled (list A) :=
  match ps with
  | [] => Fulfilled []
  | Rejected e :: _ => Rejected e
  | Fulfilled v :: rest =>
      match Promise_all rest with
      | Fulfilled vs => Fulfilled (v :: vs)
      | Rejected e => Rejected e
      end
  end.

(** ** Search aggregator *)

(** The [filter] callback of [deduplicateRecipes], with the [seen] set it
    closes over. *)
Fixpoint dedup_from (seen : gset string) (recipes : list RawRecipe)
  : list RawRecipe :=
  match recipes with
  | [] => []
  | r :: rest =>
      if bool_decide (idMeal r ∈ seen) then dedup_from seen rest
      else r :: dedup_from ({[idMeal r]} ∪ seen) rest
  end.

Definition deduplicateRecipes (recipes : list RawRecipe) : list RawRecipe :=
  dedup_from ∅ recipes.

(** [Array.prototype.slice(start, end)] *)
Definition Array_slice {A} (start finish : Z) (l : list A) : list A :=
  let len := Z.of_nat (length l) in
  let k := if start <? 0 then Z.max (len + start) 0 else Z.min start len in
  let final := if finish <? 0 then Z.max (len + finish) 0 else Z.min finish len in
  take (Z.to_nat (final - k)) (drop (Z.to_nat k) l).

Definition getMatchingIngredients (r : RawRecipe) (searchIngredients : list string)
  : list string :=
  let maxMatches := Z.min (Z.of_nat (length searchIngredients)) 3 in
  Array_slice 0 maxMatches searchIngredients.

(** ** Filter engine *)

(** [tag && tag.toLowerCase() === wanted.toLowerCase()] *)
Definition tag_matches (tag : option string) (wanted : string) : bool :=
  match tag with
  | Some t =>
      Str.truthy t && bool_decide (Str.toLowerCase t = Str.toLowerCase wanted)
  | None => false
  end.

(** [filtered.filter(() => Math.random() > threshold)]: the callback runs
    once per element, in order; [rand i] is the value of the [i]-th call of
    [Math.random]. *)
Fixpoint filter_random {A} (threshold : float) (rand : nat -> float) (i : nat)
  (l : list A) : list A :=
  match l with
  | [] => []
  | x :: rest =>
      if PrimFloat.ltb threshold (rand i)
      then x :: filter_random threshold rand (S i) rest
      else filter_random threshold rand (S i) rest
  end.

(** The keep ratio of a time bucket: 0.7 for [quick], 0.8 for [medium],
    0.6 otherwise (the literals are the binary64 values JavaScript reads). *)
Definition time_ratio (bucket : string) : float :=
  if bool_decide (bucket = "quick") then 0x1.6666666666666p-1%float
  else if bool_decide (bucket = "medium") then 0x1.999999999999ap-1%float
  else 0x1.3333333333333p-1%float.

Definition applyFilters (rand : nat -> float) (a : App) : App :=
  let st := state a in
  let crit := currentFilter st in
  let filtered := allRecipes st in
  let filtered :=
    if Str.truthy (category crit)
    then List.filter (fun r => tag_matches (strCategory (recipe r)) (category crit))
                     filtered
    else filtered in
  let filtered :=
    if Str.truthy (area crit)
    then List.filter (fun r => tag_matches (strArea (recipe r)) (area crit))
                     filtered
    else filtered in
  let filtered :=
    if Str.truthy (time crit)
    then filter_random (1 - time_ratio (time crit))%float rand 0 filtered
    else filtered in
  renderRecipeGrid (with_state (set_filteredRecipes filtered) a).

(** ** [searchRecipes]

    The method runs in two parts.  [searchRecipes_begin] is the part up to
    the [await]: it returns the application and, when the fetches were
    launched, the [ingredients] array the continuation closes over.
    [searchRecipes_settle] is the continuation, run on the application as it
    is when [Promise.all] has settled. *)

Definition searchRecipes_begin (a : App) : App * option (list string) :=
  if (JSSet.size (selectedIngredients (state a)) =? 0)%nat then
    (renderEmptyState a, None)
  else
    let a := with_state (set_isLoading true) a in
    let a := with_state (set_error None) a in
    let a := renderLoadingState a in
    (a, Some (JSSet.to_array (selectedIngredients (state a)))).

Definition search_failed_message : string :=
  "Failed to search recipes. Please try again.".

Definition searchRecipes_settle (ingredients : list string)
  (results : Settled (list (list RawRecipe))) (rand : nat -> float) (a : App)
  : App :=
  match results with
  | Fulfilled results =>
      let allRecipes := concat results in
      let uniqueRecipes := deduplicateRecipes allRecipes in
      let recipesWithMatches :=
        map (fun r => mkAnnotated r (getMatchingIngredients r ingredients))
            uniqueRecipes in
      let a := with_state (set_allRecipes recipesWithMatches) a in
      let a := with_state (set_isLoading false) a in
      applyFilters rand a
  | Rejected _ =>
      let a := with_state (set_error (Some search_failed_message)) a in
      let a := with_state (set_isLoading false) a in
      renderErrorState a
  end.

(** The per-ingredient promises, in the order of the [ingredients] array. *)
Definition searchPromises (net : Catalog) (ingredients : list string)
  : list (Settled (list RawRecipe)) :=
  map (fetchRecipesByIngredient net) ingredients.

(** One whole run of [searchRecipes] with nothing else happening between
    its two parts. *)
Definition searchRecipes (net : Catalog) (rand : nat -> float) (a : App) : App :=
  match searchRecipes_begin a with
  | (a, None) => a
  | (a, Some ingredients) =>
      searchRecipes_settle ingredients
        (Promise_all (searchPromises net ingredients)) rand a
  end.

(** ** Ingredient set *)

(** [ingredient.toLowerCase().trim()] *)
Definition normalize (ingredient : string) : string :=
  Str.trim (Str.toLowerCase ingredient).

(** [addIngredient(ingredient)].  The search it starts is not awaited: the
    call returns after [searchRecipes_begin], with the fetches in flight
    ([None] when no search was started). *)
Definition addIngredient (ingredient : string) (a : App)
  : App * option (list string) :=
  let normalizedIngredient := normalize ingredient in
  if Str.truthy normalizedIngredient
     && negb (JSSet.has normalizedIngredient (selectedIngredients (state a)))
  then
    searchRecipes_begin
      (with_state
         (fun s => set_selectedIngredients
                     (JSSet.add normalizedIngredient (selectedIngredients s)) s)
         a)
  else (a, None).

Definition removeIngredient (ingredient : string) (a : App)
  : App * option (list string) :=
  let a :=
    with_state
      (fun s => set_selectedIngredients
                  (JSSet.delete ingredient (selectedIngredients s)) s) a in
  if (0 <? JSSet.size (selectedIngredients (state a)))%nat
  then searchRecipes_begin a
  else (renderEmptyState a, None).

Definition clearAllIngredients (a : App) : App :=
  let a := with_state (set_selectedIngredients JSSet.empty) a in
  let a := with_state (set_allRecipes []) a in
  let a := with_state (set_filteredRecipes []) a in
  let a := with_state (set_error None) a in
  renderEmptyState a.

(** ** Favorites *)

Definition toggleFavorite (a : App) : App :=
  match currentRecipe a with
  | None => a
  | Some current =>
      let recipeId := idMeal current in
      if bool_decide (recipeId ∈ favorites (state a)) then
        showToast "Removed from favorites"
          (with_state (fun s => set_favorites (favorites s ∖ {[recipeId]}) s) a)
      else
        showToast "Added to favorites!"
          (with_state (fun s => set_favorites ({[recipeId]} ∪ favorites s) s) a)
  end.

(** ** Timer *)

(** [setInterval(callback, 1000)]: a fresh handle is scheduled. *)
Definition setInterval (b : Browser) : nat * Browser :=
  let h := nextHandle b in
  (h, mkBrowser (screen b) (toasts b) (intervals b ++ [h]) (S h)).

(** [clearInterval(h)] *)
Definition clearInterval (h : nat) (b : Browser) : Browser :=
  mkBrowser (screen b) (toasts b) (filter (fun k => k ≠ h) (intervals b))
            (nextHandle b).

Definition setTimer (seconds : Z) (a : App) : App :=
  with_timer (set_timeRemaining seconds) a.

Definition startTimer (a : App) : App :=
  let a := if timeRemaining (timerState (state a)) <=? 0
           then setTimer 300 a else a in
  let a := with_timer (set_isRunning true) a in
  let (h, b) := setInterval (browser a) in
  with_timer (set_interval (Some h)) (with_browser (fun _ => b) a).

Definition pauseTimer (a : App) : App :=
  let a :=
    match interval (timerState (state a)) with
    | Some h =>
        (* [if (interval)]: a handle is truthy unless it is 0 *)
        if (h =? 0)%nat then a else with_browser (clearInterval h) a
    | None => a
    end in
  let a := with_timer (set_isRunning false) a in
  with_timer (set_interval None) a.

Definition resetTimer (a : App) : App :=
  let a := pauseTimer a in
  with_timer (set_timeRemaining 0) a.

Definition timer_finished_message : string :=
  "⏰ Timer finished! Your food is ready!".

Definition tickTimer (a : App) : App :=
  if 0 <? timeRemaining (timerState (state a)) then
    with_timer (fun t => set_timeRemaining (timeRemaining t - 1) t) a
  else
    showToast timer_finished_message (pauseTimer a).

(** The events that reach the timer: the four controls, and the browser
    running the callback of a scheduled interval.  Every interval of the
    page carries the same callback, [() => this.tickTimer()]; with no
    interval scheduled no callback runs. *)
Inductive TimerOp : Type :=
| OpSetDuration (seconds : Z)
| OpStart
| OpPause
| OpReset
| OpTick.

Definition timer_step (a : App) (op : TimerOp) : App :=
  match op with
  | OpSetDuration seconds => setTimer seconds a
  | OpStart => startTimer a
  | OpPause => pauseTimer a
  | OpReset => resetTimer a
  | OpTick =>
      match intervals (browser a) with
      | [] => a
      | _ :: _ => tickTimer a
      end
  end.

Definition timer_run (ops : list TimerOp) (a : App) : App :=
  fold_left timer_step ops a.

(** The number of tick sources that are scheduled and not cancelled. *)
Definition active_tick_sources (a : App) : nat :=
  length (intervals (browser a)).

(** ** Notions used in the statements *)

(** Position [i] of [l] holds a record whose identifier no earlier
    position of [l] carries. *)
Definition is_first_occurrence (l : list RawRecipe) (i : nat) : Prop :=
  ∃ r, l !! i = Some r
       ∧ ∀ j r', (j < i)%nat → l !! j = Some r' → idMeal r' ≠ idMeal r.

(** The first record of [l] that carries the identifier [id]. *)
Definition first_with_id (id : string) (l : list RawRecipe) : option RawRecipe :=
  List.find (fun r => bool_decide (idMeal r = id)) l.

(** The members are pairwise distinct and each is its own normal form. *)
Definition IngredientSetInv (s : JSSet.t) : Prop :=
  NoDup s ∧ Forall (fun x => normalize x = x) s.

(** The three methods that write [selectedIngredients]. *)
Inductive IngredientOp : Type :=
| OpAdd (input : string)
| OpRemove (token : string)
| OpClear.

Definition ingredient_step (a : App) (op : IngredientOp) : App :=
  match op with
  | OpAdd input => (addIngredient input a).1
  | OpRemove token => (removeIngredient token a).1
  | OpClear => clearAllIngredients a
  end.

(** [setDuration(90)], [start()], then [n] ticks. *)
Definition scenario90 (n : nat) (a : App) : App :=
  timer_run (OpSetDuration 90 :: OpStart :: replicate n OpTick) a.

(** The timer is at rest with nothing remaining: the state the expiring
    branch of [tickTimer] leaves. *)
Definition timer_expired (a : App) : Prop :=
  isRunning (timerState (state a)) = false
  ∧ interval (timerState (state a)) = None
  ∧ timeRemaining (timerState (state a)) = 0.

(** ** Worked scenarios *)

Module Scenario.

Definition recipeA : RawRecipe :=
  mkRawRecipe "52940" "Brown Stew Chicken" "a.jpg" (Some "Chicken")
              (Some "Jamaican").

Definition recipeB : RawRecipe :=
  mkRawRecipe "52772" "Teriyaki Chicken Casserole" "b.jpg" None
              (Some "Japanese").

Definition recipeOld : AnnotatedRecipe :=
  mkAnnotated (mkRawRecipe "52874" "Beef and Mustard Pie" "c.jpg"
                           (Some "Beef") (Some "British"))
              ["beef"].

(** The catalog has recipe A for chicken and recipes A and B for every
    other ingredient. *)
Definition catalog_up : Catalog :=
  fun i =>
    if bool_decide (i = "chicken")
    then Response true (JsonObject (MealsArray [recipeA]))
    else Response true (JsonObject (MealsArray [recipeA; recipeB])).

(** The same catalog with the request for rice answered by a server
    error. *)
Definition catalog_rice_down : Catalog :=
  fun i =>
    if bool_decide (i = "rice") then Response false NotJson
    else catalog_up i.

Definition rand_low : nat → float := fun _ => 0%float.
Definition rand_high : nat → float := fun _ => 0x1.fp-1%float.

(** Chicken and rice selected, an older result list on display. *)
Definition app_chicken_rice : App :=
  mkApp (mkState ["chicken"; "rice"] [recipeOld] [recipeOld] false None
                 (mkFilter "" "" "") ∅ 4 (mkTimer false false 0 None))
        None
        (mkBrowser GridScreen [] [] 1).

(** Two results stored, the category filter set, no time bucket. *)
Definition app_filtered : App :=
  mkApp (mkState ["chicken"]
                 [mkAnnotated recipeA ["chicken"];
                  mkAnnotated recipeB ["chicken"]]
                 [] false None (mkFilter "" "chicken" "") ∅ 4
                 (mkTimer false false 0 None))
        None
        (mkBrowser GridScreen [] [] 1).

End Scenario.

(** * Further methods of the class

    The rest of [PremiumRecipeFinderApp], embedded as the methods above
    are. *)

(** ** More of [String.prototype] and [Number.prototype] *)
Module Text.

Fixpoint startsWith_chars (p s : list ascii) : bool :=
  match p, s with
  | [], _ => true
  | c :: p', d :: s' => bool_decide (c = d) && startsWith_chars p' s'
  | _ :: _, [] => false
  end.

Fixpoint includes_chars (q s : list ascii) : bool :=
  startsWith_chars q s
  || match s with
     | [] => false
     | _ :: s' => includes_chars q s'
     end.

(** [s.includes(q)] *)
Definition includes (s q : string) : bool :=
  includes_chars (list_ascii_of_string q) (list_ascii_of_string s).

(** [n.toString()] for an integer [n]: its decimal digits, with a minus
    sign when it is negative. *)
Definition toString (n : Z) : string :=
  DecimalString.NilZero.string_of_int (Z.to_int n).

(** [s.padStart(2, '0')] *)
Definition padStart2 (s : string) : string :=
  match String.length s with
  | 0%nat => "00"
  | 1%nat => String.append "0" s
  | _ => s
  end.

(** The pieces [s.split(/\r?\n/)] cuts [s] into: a line ends at a line
    feed, or at a carriage return that a line feed follows; [cur] holds
    the characters of the current piece, last one first. *)
Fixpoint split_lines_chars (cur : list ascii) (s : list ascii)
  : list (list ascii) :=
  match s with
  | [] => [rev cur]
  | c :: rest =>
      if bool_decide (c = "010"%char) then
        rev cur :: split_lines_chars [] rest
      else
        match rest with
        | d :: rest' =>
            if bool_decide (c = "013"%char) && bool_decide (d = "010"%char)
            then rev cur :: split_lines_chars [] rest'
            else split_lines_chars (c :: cur) rest
        | [] => split_lines_chars (c :: cur) rest
        end
  end.

Definition split_lines (s : string) : list string :=
  map string_of_list_ascii (split_lines_chars [] (list_ascii_of_string s)).

End Text.

(** ** Ingredient tokens under the engine's string functions

    [String.prototype.toLowerCase] and [String.prototype.trim] belong to
    the JavaScript engine, not to the repository.  The definitions of this
    part take them as the parameters [toLowerCase] and [trim]. *)

(** [ingredient.toLowerCase().trim()] *)
Definition normalize_with (toLowerCase trim : string -> string)
  (ingredient : string) : string :=
  trim (toLowerCase ingredient).

(** [addIngredient(ingredient)], as [addIngredient] above. *)
Definition addIngredient_with (toLowerCase trim : string -> string)
  (ingredient : string) (a : App) : App * option (list string) :=
  let normalizedIngredient := normalize_with toLowerCase trim ingredient in
  if Str.truthy normalizedIngredient
     && negb (JSSet.has normalizedIngredient (selectedIngredients (state a)))
  then
    searchRecipes_begin
      (with_state
         (fun s => set_selectedIngredients
                     (JSSet.add normalizedIngredient (selectedIngredients s)) s)
         a)
  else (a, None).

(** The members are pairwise distinct and each is a normalised value, the
    lowercased and trimmed form of some text. *)
Definition NormalizedSet (toLowerCase trim : string -> string) (s : JSSet.t)
  : Prop :=
  NoDup s
  ∧ Forall (fun x => ∃ input, x = normalize_with toLowerCase trim input) s.

(** The three methods that write [selectedIngredients]. *)
Definition ingredient_step_with (toLowerCase trim : string -> string)
  (a : App) (op : IngredientOp) : App :=
  match op with
  | OpAdd input => (addIngredient_with toLowerCase trim input a).1
  | OpRemove token => (removeIngredient token a).1
  | OpClear => clearAllIngredients a
  end.

(** ** Suggestions and the ingredient input *)

(** [this.searchableIngredients] *)
Definition searchableIngredients : list string :=
  [ "chicken"; "pork"; "salmon"; "shrimp"; "tuna"; "eggs"; "milk"; "cheese";
    "butter"; "rice"; "pasta"; "bread"; "potatoes"; "onions"; "garlic";
    "tomatoes"; "carrots"; "broccoli"; "spinach"; "mushrooms";
    "bell peppers"; "zucchini"; "lemon"; "lime"; "olive oil"; "salt";
    "pepper"; "basil"; "oregano"; "thyme" ].

(** The ingredient input: its text, and the entries of the suggestion
    container (none when the container is hidden). *)
Record SearchBox : Type := mkSearchBox {
  inputValue : string;
  suggestions : list string
}.

(** [showSuggestions(query)]: the entries the container gets; with none
    to show it is hidden. *)
Definition showSuggestions (query : string) (a : App) : list string :=
  Array_slice 0 6
    (List.filter
       (fun ingredient =>
          Text.includes (Str.toLowerCase ingredient) query
          && negb (JSSet.has (Str.toLowerCase ingredient)
                             (selectedIngredients (state a))))
       searchableIngredients).

Definition hideSuggestions (box : SearchBox) : SearchBox :=
  mkSearchBox (inputValue box) [].

Inductive Key : Type :=
| KeyEnter
| KeyEscape
| KeyOther.

(** [handleSearchKeydown(e)], [e.target] being the ingredient input; the
    method alone, without the listeners of the document the key press
    reaches afterwards. *)
Definition handleSearchKeydown (toLowerCase trim : string -> string)
  (key : Key) (box : SearchBox) (a : App)
  : App * option (list string) * SearchBox :=
  match key with
  | KeyEnter =>
      let value := trim (inputValue box) in
      if Str.truthy value
      then (addIngredient_with toLowerCase trim value a,
            hideSuggestions (mkSearchBox "" (suggestions box)))
      else (a, None, box)
  | KeyEscape => (a, None, hideSuggestions box)
  | KeyOther => (a, None, box)
  end.

(** The click handler [showSuggestions] puts on an entry. *)
Definition clickSuggestion (ingredient : string) (box : SearchBox) (a : App)
  : App * option (list string) * SearchBox :=
  (addIngredient ingredient a, hideSuggestions (mkSearchBox "" (suggestions box))).

(** ** Retry, filter controls, servings *)

(** [retrySearch()], the search it starts run to its end. *)
Definition retrySearch (net : Catalog) (rand : nat -> float) (a : App) : App :=
  let a := with_state (set_error None) a in
  if (0 <? JSSet.size (selectedIngredients (state a)))%nat
  then searchRecipes net rand a
  else renderEmptyState a.

Definition set_currentFilter (v : FilterCriteria) (s : State) : State :=
  mkState (selectedIngredients s) (allRecipes s) (filteredRecipes s)
          (isLoading s) (error s) v (favorites s) (currentServings s)
          (timerState s).

Definition set_currentServings (v : Z) (s : State) : State :=
  mkState (selectedIngredients s) (allRecipes s) (filteredRecipes s)
          (isLoading s) (error s) (currentFilter s) (favorites s) v
          (timerState s).

(** The three filter selects: [e.target.id] without its [-filter]
    suffix. *)
Inductive FilterKind : Type :=
| FilterTime
| FilterCategory
| FilterArea.

(** [this.state.currentFilter[filterType] = e.target.value] *)
Definition set_criterion (kind : FilterKind) (value : string)
  (c : FilterCriteria) : FilterCriteria :=
  match kind with
  | FilterTime => mkFilter value (category c) (area c)
  | FilterCategory => mkFilter (time c) value (area c)
  | FilterArea => mkFilter (time c) (category c) value
  end.

Definition handleFilterChange (kind : FilterKind) (value : string)
  (rand : nat -> float) (a : App) : App :=
  applyFilters rand
    (with_state
       (fun s => set_currentFilter (set_criterion kind value (currentFilter s)) s)
       a).

(** [adjustServings(change)] *)
Definition adjustServings (change : Z) (a : App) : App :=
  with_state
    (fun s => set_currentServings (Z.max 1 (currentServings s + change)) s) a.

(** ** Timer display *)

(** The text [updateTimerDisplay] writes for [timeRemaining]. *)
Definition timeString (timeRemaining : Z) : string :=
  let minutes := timeRemaining / 60 in
  let seconds := Z.rem timeRemaining 60 in
  String.append (Text.padStart2 (Text.toString minutes))
    (String.append ":" (Text.padStart2 (Text.toString seconds))).

(** ** Notions used in the further statements *)

(** [start()], then [n] ticks. *)
Definition countdown (n : nat) (a : App) : App :=
  timer_run (OpStart :: replicate n OpTick) a.

(** The seconds [start()] counts down from: what remains, or the preset
    300 when nothing remains. *)
Definition start_duration (a : App) : Z :=
  if timeRemaining (timerState (state a)) <=? 0 then 300
  else timeRemaining (timerState (state a)).

(** The timer and the browser agree: the handle the timer holds is the
    one interval scheduled and the timer is marked running, or no handle
    is held, no interval is scheduled and the timer is not marked
    running. *)
Definition timer_consistent (a : App) : Prop :=
  match interval (timerState (state a)) with
  | Some h =>
      intervals (browser a) = [h] ∧ h ≠ 0%nat
      ∧ isRunning (timerState (state a)) = true
  | None =>
      intervals (browser a) = [] ∧ isRunning (timerState (state a)) = false
  end
  ∧ nextHandle (browser a) ≠ 0%nat.

(** [start()] is issued only while the timer is not marked running. *)
Fixpoint start_only_when_stopped (ops : list TimerOp) (a : App) : bool :=
  match ops with
  | [] => true
  | op :: rest =>
      match op with
      | OpStart => negb (isRunning (timerState (state a)))
      | _ => true
      end
      && start_only_when_stopped rest (timer_step a op)
  end.

(** No duration set is negative. *)
Definition durations_nonnegative (ops : list TimerOp) : Prop :=
  Forall (fun op => match op with
                    | OpSetDuration seconds => 0 ≤ seconds
                    | _ => True
                    end) ops.

(** The character of a decimal digit. *)
Definition digit_char (d : Z) : ascii := ascii_of_N (48 + Z.to_N d).

(** ** Recipe modal *)

(** A detailed record as the lookup endpoint returns it: the summary
    fields, the instructions, the pairs [strIngredient1]/[strMeasure1] to
    [strIngredient20]/[strMeasure20], and the two links. *)
Record DetailRecipe : Type := mkDetail {
  summary : RawRecipe;
  strInstructions : option string;
  ingredientPairs : list (option string * option string);
  strSource : option string;
  strYoutube : option string
}.

Inductive DetailMeals : Type :=
| DetailMissing
| DetailNull
| DetailArray (l : list DetailRecipe).

Inductive DetailBody : Type :=
| DetailNotJson
| DetailJsonNull
| DetailJsonObject (meals : DetailMeals).

(** What the network does with the lookup request. *)
Inductive DetailOutcome : Type :=
| DetailNetworkFailure
| DetailResponse (ok : bool) (body : DetailBody).

(** The application together with the visibility of the recipe modal. *)
Record Page : Type := mkPage {
  pageApp : App;
  modalOpen : bool
}.

(** The ingredient lines of the modal: for each of the first 20 pairs
    whose ingredient is not blank, the trimmed measure and a space (when
    there is a measure) followed by the trimmed ingredient. *)
Definition modalIngredientLine (pair : option string * option string)
  : option string :=
  match pair.1 with
  | Some ingredient =>
      if Str.truthy ingredient && Str.truthy (Str.trim ingredient) then
        Some (String.append
                (match pair.2 with
                 | Some measure =>
                     if Str.truthy measure
                     then String.append (Str.trim measure) " "
                     else ""
                 | None => ""
                 end)
                (Str.trim ingredient))
      else None
  | None => None
  end.

Definition modalIngredients (r : DetailRecipe) : list string :=
  omap modalIngredientLine (take 20 (ingredientPairs r)).

(** The instruction steps of the modal: the lines of the instructions
    that are not blank, trimmed and numbered from 1; [trim] is the
    engine's [String.prototype.trim]. *)
Definition instructionSteps (trim : string -> string) (instructions : string)
  : list (nat * string) :=
  imap (fun index line => ((index + 1)%nat, trim line))
       (List.filter (fun line => Str.truthy (trim line))
                    (Text.split_lines instructions)).

(** [renderRecipeModal(recipe)] throws when the record has no
    instructions to [split]. *)
Definition renderRecipeModal_throws (r : DetailRecipe) : bool :=
  match strInstructions r with
  | Some _ => false
  | None => true
  end.

Definition detail_failed_message : string :=
  "Failed to load recipe details. Please try again.".

(** [showRecipeModal(recipeId)], [out] being what the lookup request for
    [recipeId] comes to. *)
Definition showRecipeModal (out : DetailOutcome) (p : Page) : Page :=
  let failed (q : Page) :=
    mkPage (showToast detail_failed_message (pageApp q)) (modalOpen q) in
  match out with
  | DetailNetworkFailure => failed p
  | DetailResponse ok body =>
      if negb ok then failed p
      else
        match body with
        | DetailNotJson | DetailJsonNull => failed p
        | DetailJsonObject (DetailMissing | DetailNull | DetailArray []) =>
            failed p
        | DetailJsonObject (DetailArray (r :: _)) =>
            let p :=
              mkPage (mkApp (state (pageApp p)) (Some (summary r)) (browser (pageApp p)))
                     (modalOpen p) in
            if renderRecipeModal_throws r then failed p
            else mkPage (pageApp p) true
        end
  end.

(** [closeModal()] *)
Definition closeModal (p : Page) : Page :=
  mkPage (mkApp (state (pageApp p)) None (browser (pageApp p))) false.

(** ** The React variant described in [react-app-final.md] *)

(** A JavaScript [Map] with string keys, as the list of its entries in
    insertion order; [set] on a key that is present replaces the value
    where it stands. *)
Fixpoint Map_set (k : string) (v : RawRecipe) (m : list (string * RawRecipe))
  : list (string * RawRecipe) :=
  match m with
  | [] => [(k, v)]
  | (k', v') :: rest =>
      if bool_decide (k' = k) then (k, v) :: rest
      else (k', v') :: Map_set k v rest
  end.

(** [new Map(entries)] *)
Definition Map_of_entries (entries : list (string * RawRecipe))
  : list (string * RawRecipe) :=
  fold_left (fun m e => Map_set e.1 e.2 m) entries [].

(** [Array.from(new Map(allRecipes.map(recipe => [recipe.idMeal, recipe])).values())] *)
Definition uniqueRecipes (allRecipes : list RawRecipe) : list RawRecipe :=
  map snd (Map_of_entries (map (fun r => (idMeal r, r)) allRecipes)).

(** The last record of [l] that carries the identifier [id]. *)
Definition last_with_id (id : string) (l : list RawRecipe) : option RawRecipe :=
  first_with_id id (rev l).

(** [Math.min(Math.max(recipe.ingredients?.length * 5 || 30, 15), 120)];
    [None] is a recipe without an [ingredients] array. *)
Definition estimatedTime (ingredients : option (list string)) : Z :=
  let scaled :=
    match ingredients with
    | Some l => Z.of_nat (length l) * 5
    | None => 0
    end in
  Z.min (Z.max (if scaled =? 0 then 30 else scaled) 15) 120.

(** * Properties *)

(** ** The fan-in barrier *)

Section PromiseAll.
Context {A : Type}.
Implicit Types ps : list (Settled A).

Lemma Promise_all_rejected ps p :
  p ∈ ps → is_rejected p = true → ∃ e, Promise_all ps = Rejected e.
Proof.
  induction ps as [|q ps IH]; intros Hin Hrej.
  - by apply elem_of_nil in Hin.
  - apply elem_of_cons in Hin as [->|Hin].
    + destruct q as [v|e]; [discriminate|]. by exists e.
    + destruct q as [v|e]; simpl; [|by eexists].
      destruct (IH Hin Hrej) as [e ->]. by exists e.
Qed.

Lemma Promise_all_fulfilled {B} (f : B → Settled A) (xs : list B) (vs : list A) :
  Forall2 (fun x v => f x = Fulfilled v) xs vs →
  Promise_all (map f xs) = Fulfilled vs.
Proof.
  induction 1 as [|x v xs vs Hx _ IH]; simpl; [done|].
  by rewrite Hx, IH.
Qed.
End PromiseAll.

(** The part of [searchRecipes] before the [await] keeps both recipe lists
    and hands the continuation the enumeration of the ingredient set. *)
Lemma searchRecipes_begin_started (a : App) :
  selectedIngredients (state a) ≠ [] →
  ∃ a1, searchRecipes_begin a = (a1, Some (selectedIngredients (state a)))
        ∧ allRecipes (state a1) = allRecipes (state a)
        ∧ filteredRecipes (state a1) = filteredRecipes (state a).
Proof.
  intros Hne.
  exists (renderLoadingState
            (with_state (set_error None) (with_state (set_isLoading true) a))).
  split; [|done].
  unfold searchRecipes_begin, JSSet.size.
  destruct (selectedIngredients (state a)) eqn:Hsel; [done|].
  simpl. by rewrite Hsel.
Qed.

(** The continuation on a rejected barrier: the error is recorded and
    neither recipe list is written, whatever the application looks like
    when the barrier settles. *)
Lemma searchRecipes_settle_rejected ingredients e rand (b : App) :
  let b' := searchRecipes_settle ingredients (Rejected e) rand b in
  error (state b') = Some search_failed_message
  ∧ isLoading (state b') = false
  ∧ allRecipes (state b') = allRecipes (state b)
  ∧ filteredRecipes (state b') = filteredRecipes (state b)
  ∧ screen (browser b') = ErrorScreen.
Proof. done. Qed.

(** ** Deduplication *)

Section Dedup.
Implicit Types (seen : gset string) (l : list RawRecipe) (r : RawRecipe).

Lemma dedup_from_sublist seen l : dedup_from seen l `sublist_of` l.
Proof.
  revert seen. induction l as [|r l IH]; intros seen; simpl; [constructor|].
  case_bool_decide.
  - by apply sublist_cons.
  - by apply sublist_skip.
Qed.

Lemma dedup_from_fresh seen l r :
  r ∈ dedup_from seen l → idMeal r ∉ seen.
Proof.
  revert seen. induction l as [|x l IH]; intros seen; simpl.
  - by intros ?%elem_of_nil.
  - case_bool_decide as Hx; [by apply IH|].
    intros [->|Hin%IH]%elem_of_cons; [done|]. set_solver.
Qed.

Lemma dedup_from_NoDup seen l : NoDup (map idMeal (dedup_from seen l)).
Proof.
  revert seen. induction l as [|x l IH]; intros seen; simpl; [constructor|].
  case_bool_decide as Hx; [by apply IH|].
  simpl. constructor; [|by apply IH].
  intros (r & Hid & Hin%dedup_from_fresh)%list_elem_of_fmap. set_solver.
Qed.

Lemma dedup_from_first seen l r :
  r ∈ dedup_from seen l
  ↔ ((idMeal r ∉ seen) ∧ first_with_id (idMeal r) l = Some r).
Proof.
  unfold first_with_id.
  revert seen. induction l as [|x l IH]; intros seen; simpl.
  - split; [by intros ?%elem_of_nil | by intros [_ ?]].
  - destruct (decide (idMeal x = idMeal r)) as [Heq|Hne].
    + rewrite (bool_decide_eq_true_2 (idMeal x = idMeal r)) by done.
      case_bool_decide as Hx.
      * split; [intros Hin%dedup_from_fresh; by rewrite Heq in Hx | ].
        intros [Hr _]. by rewrite Heq in Hx.
      * rewrite elem_of_cons. split.
        -- intros [->|Hin%dedup_from_fresh]; [done|].
           apply not_elem_of_union in Hin as [Hin _].
           by apply not_elem_of_singleton in Hin.
        -- intros [_ [= ->]]. by left.
    + rewrite (bool_decide_eq_false_2 (idMeal x = idMeal r)) by done.
      case_bool_decide as Hx.
      * apply IH.
      * rewrite elem_of_cons, IH. split.
        -- intros [->|[Hr ?]]; [done|].
           by apply not_elem_of_union in Hr as [_ ?].
        -- intros [Hr ?]. right. split; [|done].
           apply not_elem_of_union. split; [|done].
           apply not_elem_of_singleton. congruence.
Qed.

Lemma first_with_id_elem l x :
  x ∈ l → ∃ r, first_with_id (idMeal x) l = Some r ∧ idMeal r = idMeal x.
Proof.
  induction l as [|y l IH]; [by intros ?%elem_of_nil|].
  intros Hin. unfold first_with_id. simpl. case_bool_decide as Hy.
  - by exists y.
  - apply elem_of_cons in Hin as [->|Hin]; [done|]. by apply IH.
Qed.
End Dedup.

(** ** Filter engine: what it writes *)

Lemma applyFilters_allRecipes rand (a : App) :
  allRecipes (state (applyFilters rand a)) = allRecipes (state a).
Proof.
  unfold applyFilters, renderRecipeGrid.
  by destruct (filteredRecipes _).
Qed.

(** ** Annotation *)

Lemma Array_slice_prefix {A} (n : Z) (l : list A) :
  0 ≤ n → Array_slice 0 n l = take (Z.to_nat n) l.
Proof.
  intros Hn. unfold Array_slice.
  assert ((0 <? 0) = false) as -> by done.
  assert ((n <? 0) = false) as -> by lia.
  replace (Z.to_nat (Z.min 0 (Z.of_nat (length l)))) with 0%nat by lia.
  rewrite drop_0.
  destruct (decide (n ≤ Z.of_nat (length l))).
  - f_equal. lia.
  - rewrite !take_ge by lia. done.
Qed.

Lemma getMatchingIngredients_take (r : RawRecipe) (ingredients : list string) :
  getMatchingIngredients r ingredients
  = take (Nat.min (length ingredients) 3) ingredients.
Proof.
  unfold getMatchingIngredients. rewrite Array_slice_prefix by lia.
  f_equal. lia.
Qed.

(** ** A successful run *)

Lemma searchRecipes_fulfilled net rand (a : App) results :
  selectedIngredients (state a) ≠ [] →
  Promise_all (searchPromises net (selectedIngredients (state a)))
  = Fulfilled results →
  allRecipes (state (searchRecipes net rand a))
  = map (fun r => mkAnnotated r
                    (getMatchingIngredients r (selectedIngredients (state a))))
        (deduplicateRecipes (concat results)).
Proof.
  intros Hne Hall. unfold searchRecipes.
  destruct (searchRecipes_begin_started a Hne) as (a1 & -> & _ & _).
  rewrite Hall. unfold searchRecipes_settle.
  by rewrite applyFilters_allRecipes.
Qed.

(** When the promise of [fetchRecipesByIngredient] for one of the selected
    ingredients is rejected, a run of [searchRecipes] ends in the error
    state and writes neither recipe list. *)
Lemma searchRecipes_rejected_fetch
  (net : Catalog) (rand : nat → float) (a : App) (i : string) :
  i ∈ selectedIngredients (state a) →
  is_rejected (fetchRecipesByIngredient net i) = true →
  error (state (searchRecipes net rand a)) = Some search_failed_message
  ∧ screen (browser (searchRecipes net rand a)) = ErrorScreen
  ∧ isLoading (state (searchRecipes net rand a)) = false
  ∧ allRecipes (state (searchRecipes net rand a)) = allRecipes (state a)
  ∧ filteredRecipes (state (searchRecipes net rand a))
    = filteredRecipes (state a).
Proof.
  intros Hin Hrej.
  assert (selectedIngredients (state a) ≠ []) as Hne.
  { intros Hnil. rewrite Hnil in Hin. by apply elem_of_nil in Hin. }
  unfold searchRecipes.
  destruct (searchRecipes_begin_started a Hne) as (a1 & -> & Hall & Hfil).
  destruct (Promise_all_rejected
              (searchPromises net (selectedIngredients (state a)))
              (fetchRecipesByIngredient net i)) as [e ->]; [|done|].
  { apply list_elem_of_fmap. by exists i. }
  destruct (searchRecipes_settle_rejected (selectedIngredients (state a))
              e rand a1) as (He & Hl & Ha & Hf & Hs).
  rewrite <- Hall, <- Hfil. done.
Qed.

(** The outcomes on which [fetchRecipesByIngredient] throws. *)
Lemma fetch_rejected_causes (net : Catalog) (i : string) :
  is_rejected (fetchRecipesByIngredient net i) = true
  ↔ (net i = NetworkFailure
     ∨ (∃ body, net i = Response false body)
     ∨ net i = Response true NotJson
     ∨ net i = Response true JsonNull).
Proof.
  unfold fetchRecipesByIngredient.
  destruct (net i) as [|[] [| |meals]]; simpl; split;
    try done; try by eauto 6.
  all: intros [?|[[? ?]|[?|?]]]; done.
Qed.

(** C1, as amended.  When the request for one of the selected ingredients
    fails, by a network failure, a response that is not [ok], a body that
    is not JSON or a body that is the JSON value [null], a run of
    [searchRecipes] ends in the error state: [state.error] holds the
    failure message, the error container is shown, and [allRecipes] and
    [filteredRecipes] are the lists stored before the run; nothing of the
    fetches that were fulfilled is merged.  (A body that only lacks the
    [meals] field is no failure: see the counterexample below.) *)
Theorem search_all_or_nothing
  (net : Catalog) (rand : nat → float) (a : App) (i : string) :
  i ∈ selectedIngredients (state a) →
  net i = NetworkFailure
  ∨ (∃ body, net i = Response false body)
  ∨ net i = Response true NotJson
  ∨ net i = Response true JsonNull →
  error (state (searchRecipes net rand a)) = Some search_failed_message
  ∧ screen (browser (searchRecipes net rand a)) = ErrorScreen
  ∧ isLoading (state (searchRecipes net rand a)) = false
  ∧ allRecipes (state (searchRecipes net rand a)) = allRecipes (state a)
  ∧ filteredRecipes (state (searchRecipes net rand a))
    = filteredRecipes (state a).
Proof.
  intros Hin Hcause.
  apply (searchRecipes_rejected_fetch net rand a i Hin).
  by apply fetch_rejected_causes.
Qed.

Lemma StronglySorted_map_S (ps : list nat) :
  StronglySorted Nat.lt ps → StronglySorted Nat.lt (map S ps).
Proof.
  induction 1 as [|x ps Hps IH Hx]; simpl; constructor; [done|].
  apply Forall_forall. intros y (z & -> & Hz)%list_elem_of_fmap.
  apply (proj1 (Forall_forall _ _) Hx) in Hz. unfold Nat.lt in *. lia.
Qed.

(** [dedup_from] keeps the records at the positions whose identifier is
    not in [seen] and not at an earlier position, in the order of the
    positions. *)
Lemma dedup_from_positions (seen : gset string) (l : list RawRecipe) :
  ∃ positions : list nat,
    StronglySorted Nat.lt positions
    ∧ (∀ i, i ∈ positions
            ↔ ∃ r, l !! i = Some r ∧ (idMeal r ∉ seen)
                   ∧ ∀ j r', (j < i)%nat → l !! j = Some r'
                             → idMeal r' ≠ idMeal r)
    ∧ map Some (dedup_from seen l) = map (fun i => l !! i) positions.
Proof.
  revert seen. induction l as [|x l IH]; intros seen.
  - exists []. split; [constructor|]. split; [|done].
    intros i. split; [by intros ?%elem_of_nil|]. by intros (r & Hr & _).
  - simpl. destruct (decide (idMeal x ∈ seen)) as [Hx|Hx].
    + rewrite bool_decide_eq_true_2 by done.
      destruct (IH seen) as (ps & Hsorted & Hmem & Hmap).
      exists (map S ps). split; [by apply StronglySorted_map_S|]. split.
      * intros i. rewrite list_elem_of_fmap. split.
        -- intros (k & -> & Hk). apply Hmem in Hk as (r & Hr & Hseen & Hfirst).
           exists r. split; [done|]. split; [done|].
           intros [|j] r' Hj Hr'; simpl in Hr'.
           ++ injection Hr' as <-. congruence.
           ++ apply (Hfirst j); [lia|done].
        -- intros (r & Hr & Hseen & Hfirst). destruct i as [|k].
           { simpl in Hr. injection Hr as <-. done. }
           exists k. split; [done|]. apply Hmem. exists r.
           split; [done|]. split; [done|].
           intros j r' Hj Hr'. apply (Hfirst (S j)); [lia|done].
      * rewrite Hmap, map_map. done.
    + rewrite bool_decide_eq_false_2 by done.
      destruct (IH ({[idMeal x]} ∪ seen)) as (ps & Hsorted & Hmem & Hmap).
      exists (0%nat :: map S ps). split; [|split].
      * constructor; [by apply StronglySorted_map_S|].
        apply Forall_forall. intros y (z & -> & _)%list_elem_of_fmap.
        unfold Nat.lt. lia.
      * intros i. rewrite elem_of_cons, list_elem_of_fmap. split.
        -- intros [->|(k & -> & Hk)].
           { exists x. split; [done|]. split; [done|]. intros j r' Hj. lia. }
           apply Hmem in Hk as (r & Hr & Hseen & Hfirst).
           apply not_elem_of_union in Hseen as [Hne Hseen].
           apply not_elem_of_singleton in Hne.
           exists r. split; [done|]. split; [done|].
           intros [|j] r' Hj Hr'; simpl in Hr'.
           ++ injection Hr' as <-. congruence.
           ++ apply (Hfirst j); [lia|done].
        -- intros (r & Hr & Hseen & Hfirst). destruct i as [|k]; [by left|].
           right. exists k. split; [done|]. apply Hmem. exists r.
           split; [done|]. split.
           ++ apply not_elem_of_union. split; [|done].
              apply not_elem_of_singleton. intros Heq.
              apply (Hfirst 0%nat x); [lia|done|done].
           ++ intros j r' Hj Hr'. apply (Hfirst (S j)); [lia|done].
      * simpl. rewrite Hmap, map_map. done.
Qed.

(** C2.  After a run of [searchRecipes] in which the fetch for every
    selected ingredient is fulfilled, [results] being the fetched lists in
    the enumeration order of the set: no identifier occurs twice in the
    stored list, every identifier fetched occurs in it, the record kept
    for an identifier is the first one carrying it in the concatenation
    of [results], and the records stand in the order of their first
    occurrences: the stored list is the concatenation read at the
    positions of first occurrence, in increasing order of position. *)
Theorem search_dedup_first_seen
  (net : Catalog) (rand : nat → float) (a : App)
  (results : list (list RawRecipe)) :
  selectedIngredients (state a) ≠ [] →
  Forall2 (fun i rs => fetchRecipesByIngredient net i = Fulfilled rs)
          (JSSet.to_array (selectedIngredients (state a))) results →
  let found := map recipe (allRecipes (state (searchRecipes net rand a))) in
  NoDup (map idMeal found)
  ∧ (∀ x, x ∈ concat results → idMeal x ∈ map idMeal found)
  ∧ (∀ r, r ∈ found ↔ first_with_id (idMeal r) (concat results) = Some r)
  ∧ found `sublist_of` concat results
  ∧ ∃ positions : list nat,
      StronglySorted Nat.lt positions
      ∧ (∀ i, i ∈ positions ↔ is_first_occurrence (concat results) i)
      ∧ map Some found = map (fun i => concat results !! i) positions.
Proof.
  intros Hne Hok found.
  assert (found = deduplicateRecipes (concat results)) as ->.
  { unfold found.
    rewrite (searchRecipes_fulfilled net rand a results Hne)
      by by apply Promise_all_fulfilled.
    rewrite map_map. simpl. apply map_id. }
  unfold deduplicateRecipes.
  assert (∀ r, r ∈ dedup_from ∅ (concat results)
               ↔ first_with_id (idMeal r) (concat results) = Some r) as Hfirst.
  { intros r. rewrite dedup_from_first. split; [by intros [_ ?]|].
    intros ?. split; [apply not_elem_of_empty|done]. }
  split; [apply dedup_from_NoDup|].
  split; [|split; [done|split; [apply dedup_from_sublist|]]].
  - intros x Hx. destruct (first_with_id_elem _ _ Hx) as (r & Hr & Hid).
    apply list_elem_of_fmap. exists r. split; [done|].
    apply Hfirst. by rewrite Hid.
  - destruct (dedup_from_positions ∅ (concat results))
      as (positions & Hsorted & Hmem & Hmap).
    exists positions. split; [done|]. split; [|done].
    intros i. rewrite Hmem. unfold is_first_occurrence.
    split; intros (r & Hr & H); exists r; (split; [done|]).
    + by destruct H.
    + split; [apply not_elem_of_empty|done].
Qed.

(** C3.  After a run of [searchRecipes] on a non-empty ingredient set in
    which no fetch is rejected, every stored recipe carries as
    [matchingIngredients] the first min(n, 3) members of the set in its
    enumeration order, n being the size of the set; the field has
    min(n, 3) entries, whatever the recipe is. *)
Theorem matching_ingredients_prefix
  (net : Catalog) (rand : nat → float) (a : App) (r : AnnotatedRecipe) :
  selectedIngredients (state a) ≠ [] →
  is_rejected
    (Promise_all (searchPromises net (selectedIngredients (state a)))) = false →
  r ∈ allRecipes (state (searchRecipes net rand a)) →
  matchingIngredients r
  = take (Nat.min (JSSet.size (selectedIngredients (state a))) 3)
         (JSSet.to_array (selectedIngredients (state a)))
  ∧ length (matchingIngredients r)
    = Nat.min (JSSet.size (selectedIngredients (state a))) 3.
Proof.
  intros Hne Hok Hin.
  destruct (Promise_all _) as [results|e] eqn:Hall; [|done].
  rewrite (searchRecipes_fulfilled net rand a results Hne Hall) in Hin.
  apply list_elem_of_fmap in Hin as (x & -> & _). simpl.
  rewrite getMatchingIngredients_take.
  split; [done|]. rewrite length_take. unfold JSSet.size. lia.
Qed.

(** ** Filter engine *)

Lemma renderRecipeGrid_filteredRecipes (b : App) :
  filteredRecipes (state (renderRecipeGrid b)) = filteredRecipes (state b).
Proof.
  unfold renderRecipeGrid.
  destruct (filteredRecipes (state b)) eqn:Hf; simpl; by rewrite Hf.
Qed.

Lemma filter_filter_andb {A} (f g : A → bool) (l : list A) :
  List.filter f (List.filter g l) = List.filter (fun x => g x && f x) l.
Proof.
  induction l as [|x l IH]; simpl; [done|].
  destruct (g x); simpl; [|done].
  destruct (f x); simpl; by rewrite IH.
Qed.

(** With the time bucket absent no call of [Math.random] is made: the
    result does not depend on the random source. *)
Lemma applyFilters_no_time rand1 rand2 (a : App) :
  time (currentFilter (state a)) = "" →
  applyFilters rand1 a = applyFilters rand2 a.
Proof. intros Ht. unfold applyFilters. by rewrite Ht. Qed.

(** C6.  With category, area and time bucket all absent (the empty
    string), [applyFilters] stores as [filteredRecipes] the list
    [allRecipes] itself: the same recipes in the same order, and
    [allRecipes] is left as it was. *)
Theorem applyFilters_identity (rand : nat → float) (a : App) :
  currentFilter (state a) = mkFilter "" "" "" →
  filteredRecipes (state (applyFilters rand a)) = allRecipes (state a)
  ∧ allRecipes (state (applyFilters rand a)) = allRecipes (state a).
Proof.
  intros Hcrit. split; [|apply applyFilters_allRecipes].
  unfold applyFilters, renderRecipeGrid. rewrite Hcrit. simpl.
  by destruct (allRecipes (state a)).
Qed.

(** C7.  With the time bucket absent, two runs of [applyFilters] on the
    same application value give the same application value, whatever
    [Math.random] would have returned in either run; in particular the
    same [filteredRecipes]. *)
Theorem applyFilters_deterministic_without_time
  (rand1 rand2 : nat → float) (a : App) :
  time (currentFilter (state a)) = "" →
  applyFilters rand1 a = applyFilters rand2 a
  ∧ filteredRecipes (state (applyFilters rand1 a))
    = List.filter
        (fun r =>
           (negb (Str.truthy (category (currentFilter (state a))))
            || tag_matches (strCategory (recipe r))
                           (category (currentFilter (state a))))
           && (negb (Str.truthy (area (currentFilter (state a))))
               || tag_matches (strArea (recipe r))
                              (area (currentFilter (state a)))))
        (allRecipes (state a)).
Proof.
  intros Ht. split; [by apply applyFilters_no_time|].
  unfold applyFilters. rewrite renderRecipeGrid_filteredRecipes, Ht. simpl.
  destruct (Str.truthy (category _)), (Str.truthy (area _)); simpl.
  - apply filter_filter_andb.
  - apply List.filter_ext. intros r. by rewrite andb_true_r.
  - done.
  - induction (allRecipes (state a)) as [|r l IH]; simpl; [done|]. by f_equal.
Qed.

(** ** Normalisation of ingredient tokens *)

Module StrFacts.
Import Str.

Lemma lower_char_idemp c : lower_char (lower_char c) = lower_char c.
Proof. by destruct c as [[] [] [] [] [] [] [] []]. Qed.

Lemma is_space_lower_char c : is_space (lower_char c) = is_space c.
Proof. by destruct c as [[] [] [] [] [] [] [] []]. Qed.

Lemma trimStart_chars_clean l : starts_clean (trimStart_chars l).
Proof.
  induction l as [|c l IH]; simpl; [done|].
  by destruct (is_space c) eqn:Hc.
Qed.

Lemma trimStart_chars_id l : starts_clean l → trimStart_chars l = l.
Proof. destruct l as [|c l]; simpl; [done|]. by intros ->. Qed.

Lemma trimStart_chars_snoc l c :
  is_space c = false → ∃ w, trimStart_chars (l ++ [c]) = w ++ [c].
Proof.
  intros Hc. induction l as [|d l IH]; simpl.
  - rewrite Hc. by exists [].
  - destruct (is_space d); [done|]. by exists (d :: l).
Qed.

Lemma trimEnd_chars_clean l : starts_clean l → starts_clean (trimEnd_chars l).
Proof.
  destruct l as [|c l]; [done|]. simpl. intros Hc.
  unfold trimEnd_chars. simpl.
  destruct (trimStart_chars_snoc (rev l) c Hc) as [w ->].
  by rewrite rev_unit.
Qed.

Lemma trimEnd_chars_idemp l : trimEnd_chars (trimEnd_chars l) = trimEnd_chars l.
Proof.
  unfold trimEnd_chars. rewrite rev_involutive.
  by rewrite (trimStart_chars_id _ (trimStart_chars_clean _)).
Qed.

Lemma map_lower_trimStart l :
  map lower_char (trimStart_chars l) = trimStart_chars (map lower_char l).
Proof.
  induction l as [|c l IH]; simpl; [done|].
  rewrite is_space_lower_char. by destruct (is_space c).
Qed.

Lemma map_lower_trimEnd l :
  map lower_char (trimEnd_chars l) = trimEnd_chars (map lower_char l).
Proof.
  unfold trimEnd_chars.
  by rewrite map_rev, map_lower_trimStart, map_rev.
Qed.

Lemma normal_chars_idemp l : normal_chars (normal_chars l) = normal_chars l.
Proof.
  unfold normal_chars.
  rewrite map_lower_trimEnd, map_lower_trimStart, map_map.
  rewrite (map_ext _ lower_char) by apply lower_char_idemp.
  rewrite (trimStart_chars_id (trimEnd_chars _))
    by apply trimEnd_chars_clean, trimStart_chars_clean.
  apply trimEnd_chars_idemp.
Qed.

Lemma truthy_true s : truthy s = true ↔ s ≠ "".
Proof. by destruct s. Qed.

End StrFacts.

Lemma normalize_idemp (s : string) : normalize (normalize s) = normalize s.
Proof.
  unfold normalize, Str.trim, Str.toLowerCase.
  rewrite !list_ascii_of_string_of_list_ascii.
  f_equal. apply StrFacts.normal_chars_idemp.
Qed.

(** ** Ingredient set invariant *)

Lemma IngredientSetInv_normalized_NoDup (s : JSSet.t) :
  IngredientSetInv s → NoDup (map normalize s).
Proof.
  intros [Hnd Hnorm].
  replace (map normalize s) with s; [done|].
  induction Hnorm as [|x l Hx _ IH]; simpl; [done|].
  apply NoDup_cons in Hnd as [_ Hnd]. by rewrite Hx, <- IH.
Qed.

Lemma IngredientSetInv_empty : IngredientSetInv JSSet.empty.
Proof. split; constructor. Qed.

Lemma IngredientSetInv_add (x : string) (s : JSSet.t) :
  normalize x = x → IngredientSetInv s → IngredientSetInv (JSSet.add x s).
Proof.
  intros Hx [Hnd Hnorm]. unfold JSSet.add, JSSet.has.
  case_bool_decide as Hin; [done|]. split.
  - apply NoDup_app. split; [done|]. split; [|apply NoDup_singleton].
    intros y Hy ->%list_elem_of_singleton. done.
  - apply Forall_app. split; [done|]. by constructor.
Qed.

Lemma IngredientSetInv_delete (x : string) (s : JSSet.t) :
  IngredientSetInv s → IngredientSetInv (JSSet.delete x s).
Proof.
  intros [Hnd Hnorm]. unfold JSSet.delete. split.
  - by apply NoDup_filter.
  - apply Forall_forall. intros y [_ Hy]%list_elem_of_filter.
    by apply (proj1 (Forall_forall _ _) Hnorm).
Qed.

Lemma searchRecipes_begin_selected (a : App) :
  selectedIngredients (state (searchRecipes_begin a).1)
  = selectedIngredients (state a).
Proof. unfold searchRecipes_begin. by destruct (_ =? _)%nat. Qed.

Lemma removeIngredient_keeps_invariant (token : string) (a : App) :
  IngredientSetInv (selectedIngredients (state a)) →
  IngredientSetInv (selectedIngredients (state (removeIngredient token a).1)).
Proof.
  intros Hinv. unfold removeIngredient. destruct (_ <? _)%nat.
  - rewrite searchRecipes_begin_selected. by apply IngredientSetInv_delete.
  - by apply IngredientSetInv_delete.
Qed.

Lemma clearAllIngredients_keeps_invariant (a : App) :
  IngredientSetInv (selectedIngredients (state (clearAllIngredients a))).
Proof. apply IngredientSetInv_empty. Qed.

Lemma NormalizedSet_add (toLowerCase trim : string → string)
  (input : string) (s : JSSet.t) :
  NormalizedSet toLowerCase trim s →
  NormalizedSet toLowerCase trim
    (JSSet.add (normalize_with toLowerCase trim input) s).
Proof.
  intros [Hnd Hnorm]. unfold JSSet.add, JSSet.has.
  case_bool_decide as Hin; [done|]. split.
  - apply NoDup_app. split; [done|]. split; [|apply NoDup_singleton].
    intros y Hy ->%list_elem_of_singleton. done.
  - apply Forall_app. split; [done|]. constructor; [by exists input|done].
Qed.

Lemma NormalizedSet_delete (toLowerCase trim : string → string)
  (x : string) (s : JSSet.t) :
  NormalizedSet toLowerCase trim s →
  NormalizedSet toLowerCase trim (JSSet.delete x s).
Proof.
  intros [Hnd Hnorm]. unfold JSSet.delete. split.
  - by apply NoDup_filter.
  - apply Forall_forall. intros y [_ Hy]%list_elem_of_filter.
    by apply (proj1 (Forall_forall _ _) Hnorm).
Qed.

(** When normalising is idempotent, as the engine's is, the members of a
    normalised set are their own normal forms, hence no two of them have
    the same normal form. *)
Lemma NormalizedSet_NoDup_normal_forms (toLowerCase trim : string → string)
  (s : JSSet.t) :
  (∀ x, normalize_with toLowerCase trim (normalize_with toLowerCase trim x)
        = normalize_with toLowerCase trim x) →
  NormalizedSet toLowerCase trim s →
  NoDup (map (normalize_with toLowerCase trim) s).
Proof.
  intros Hidem [Hnd Hnorm].
  replace (map (normalize_with toLowerCase trim) s) with s; [done|].
  induction Hnorm as [|x l [input ->] _ IH]; simpl; [done|].
  apply NoDup_cons in Hnd as [_ Hnd]. by rewrite Hidem, <- IH.
Qed.

(** C9.  Whatever the engine's [toLowerCase] and [trim] do, [addIngredient]
    keeps the selected ingredients a set of normalised (lowercased,
    trimmed) values without duplicates; when normalising is idempotent no
    two members have the same normal form either.  When the normal form of
    the input is empty (an empty or blank token) or is already a member,
    the call changes nothing at all and starts no search; otherwise the
    normal form of the input becomes the last member. *)
Theorem addIngredient_with_keeps_invariant
  (toLowerCase trim : string → string) (input : string) (a : App) :
  NormalizedSet toLowerCase trim (selectedIngredients (state a)) →
  NormalizedSet toLowerCase trim
    (selectedIngredients (state (addIngredient_with toLowerCase trim input a).1))
  ∧ ((∀ x, normalize_with toLowerCase trim (normalize_with toLowerCase trim x)
           = normalize_with toLowerCase trim x) →
     NoDup (map (normalize_with toLowerCase trim)
                (selectedIngredients
                   (state (addIngredient_with toLowerCase trim input a).1))))
  ∧ (normalize_with toLowerCase trim input = ""
     ∨ normalize_with toLowerCase trim input ∈ selectedIngredients (state a) →
     addIngredient_with toLowerCase trim input a = (a, None))
  ∧ (normalize_with toLowerCase trim input ≠ "" →
     normalize_with toLowerCase trim input ∉ selectedIngredients (state a) →
     selectedIngredients (state (addIngredient_with toLowerCase trim input a).1)
     = selectedIngredients (state a) ++ [normalize_with toLowerCase trim input]).
Proof.
  intros Hinv.
  assert (NormalizedSet toLowerCase trim
            (selectedIngredients
               (state (addIngredient_with toLowerCase trim input a).1)))
    as Hinv'.
  { unfold addIngredient_with. destruct (_ && _); [|done].
    rewrite searchRecipes_begin_selected. simpl.
    by apply NormalizedSet_add. }
  split; [done|].
  split; [intros Hidem; by apply NormalizedSet_NoDup_normal_forms|].
  unfold addIngredient_with, JSSet.has. split.
  - intros [Hempty|Hin].
    + by rewrite Hempty.
    + rewrite (bool_decide_eq_true_2 _ Hin). by rewrite andb_false_r.
  - intros Hne Hnin.
    rewrite (proj2 (StrFacts.truthy_true _) Hne).
    rewrite (bool_decide_eq_false_2 _ Hnin). simpl.
    rewrite searchRecipes_begin_selected. simpl.
    unfold JSSet.add, JSSet.has. by rewrite (bool_decide_eq_false_2 _ Hnin).
Qed.

(** Every ingredient set the three methods can build from the initial
    application is a set of normalised values without duplicates,
    whatever the engine's [toLowerCase] and [trim] do. *)
Lemma NormalizedSet_reachable (toLowerCase trim : string → string)
  (ops : list IngredientOp) :
  NormalizedSet toLowerCase trim
    (selectedIngredients
       (state (fold_left (ingredient_step_with toLowerCase trim) ops
                         initial_app))).
Proof.
  assert (∀ a, NormalizedSet toLowerCase trim (selectedIngredients (state a)) →
               NormalizedSet toLowerCase trim
                 (selectedIngredients
                    (state (fold_left (ingredient_step_with toLowerCase trim)
                                      ops a)))) as Hrun.
  { induction ops as [|op ops IH]; intros a Hinv; simpl; [done|].
    apply IH. destruct op as [input|token|]; simpl.
    - unfold addIngredient_with. destruct (_ && _); [|done].
      rewrite searchRecipes_begin_selected. simpl.
      by apply NormalizedSet_add.
    - unfold removeIngredient. destruct (_ <? _)%nat.
      + rewrite searchRecipes_begin_selected. by apply NormalizedSet_delete.
      + by apply NormalizedSet_delete.
    - split; constructor. }
  apply Hrun. split; constructor.
Qed.

(** [addIngredient] is [addIngredient_with] at the functions of [Str]. *)
Lemma addIngredient_instance (input : string) (a : App) :
  addIngredient input a = addIngredient_with Str.toLowerCase Str.trim input a.
Proof. reflexivity. Qed.

(** Every ingredient set the three methods can build from the initial
    application satisfies the invariant. *)
Lemma IngredientSetInv_reachable (ops : list IngredientOp) :
  IngredientSetInv
    (selectedIngredients (state (fold_left ingredient_step ops initial_app))).
Proof.
  assert (∀ a, IngredientSetInv (selectedIngredients (state a)) →
               IngredientSetInv
                 (selectedIngredients (state (fold_left ingredient_step ops a))))
    as Hrun.
  { induction ops as [|op ops IH]; intros a Hinv; simpl; [done|].
    apply IH. destruct op as [input|token|]; simpl.
    - unfold addIngredient. destruct (_ && _); [|done].
      rewrite searchRecipes_begin_selected. simpl.
      apply IngredientSetInv_add; [apply normalize_idemp|done].
    - by apply removeIngredient_keeps_invariant.
    - apply (clearAllIngredients_keeps_invariant a). }
  apply Hrun. apply IngredientSetInv_empty.
Qed.

(** ** Favorites *)

Lemma toggleFavorite_currentRecipe (a : App) :
  currentRecipe (toggleFavorite a) = currentRecipe a.
Proof.
  unfold toggleFavorite. destruct (currentRecipe a) eqn:Hc; [|done].
  by case_bool_decide.
Qed.

Lemma toggleFavorite_favorites (a : App) (current : RawRecipe) :
  currentRecipe a = Some current →
  favorites (state (toggleFavorite a))
  = if bool_decide (idMeal current ∈ favorites (state a))
    then favorites (state a) ∖ {[idMeal current]}
    else {[idMeal current]} ∪ favorites (state a).
Proof. intros Hc. unfold toggleFavorite. rewrite Hc. by case_bool_decide. Qed.

(** C10.  With a recipe displayed, [toggleFavorite] flips the membership
    of that recipe's identifier in [state.favorites] and of no other
    identifier, and two calls in a row give back the favorites set the
    first call started from.  With no recipe displayed the call changes
    nothing. *)
Theorem toggleFavorite_involution (a : App) :
  match currentRecipe a with
  | None => toggleFavorite a = a
  | Some current =>
      (∀ id : string,
         id ∈ favorites (state (toggleFavorite a))
         ↔ (if decide (id = idMeal current)
            then id ∉ favorites (state a)
            else id ∈ favorites (state a)))
      ∧ favorites (state (toggleFavorite (toggleFavorite a)))
        = favorites (state a)
  end.
Proof.
  destruct (currentRecipe a) as [current|] eqn:Hc.
  - assert (∀ id : string,
              id ∈ favorites (state (toggleFavorite a))
              ↔ (if decide (id = idMeal current)
                 then id ∉ favorites (state a)
                 else id ∈ favorites (state a))) as Hflip.
    { intros id. rewrite (toggleFavorite_favorites a current Hc).
      case_bool_decide as Hin; case_decide as Hid.
      - subst id. rewrite elem_of_difference, elem_of_singleton. tauto.
      - rewrite elem_of_difference, elem_of_singleton. tauto.
      - subst id. rewrite elem_of_union, elem_of_singleton. tauto.
      - rewrite elem_of_union, elem_of_singleton. tauto. }
    split; [done|].
    assert (currentRecipe (toggleFavorite a) = Some current) as Hc'
      by by rewrite toggleFavorite_currentRecipe.
    apply set_eq. intros id.
    rewrite (toggleFavorite_favorites _ current Hc').
    pose proof (Hflip id) as Hid. pose proof (Hflip (idMeal current)) as Hcur.
    rewrite decide_True in Hcur by done.
    destruct (decide (idMeal current ∈ favorites (state a))) as [Hold|Hold].
    all: case_bool_decide as Hin;
      rewrite ?elem_of_difference, ?elem_of_union, elem_of_singleton;
      case_decide as Heq; try subst id; tauto.
  - unfold toggleFavorite. by rewrite Hc.
Qed.

(** ** Catalog client outcomes *)

(** C8, as amended.  [fetchRecipesByIngredient] is rejected exactly on a
    network failure, a response that is not [ok], a body that is not JSON
    and a body that is the JSON value [null].  On an [ok] response whose
    body is a JSON object it is fulfilled: with the [meals] array when
    there is one (the empty array included), and with no recipes when
    [meals] is [null] or missing. *)
Theorem fetchRecipesByIngredient_outcomes (net : Catalog) (i : string) :
  (is_rejected (fetchRecipesByIngredient net i) = true
   ↔ (net i = NetworkFailure
      ∨ (∃ body, net i = Response false body)
      ∨ net i = Response true NotJson
      ∨ net i = Response true JsonNull))
  ∧ (∀ meals, net i = Response true (JsonObject meals) →
       fetchRecipesByIngredient net i
       = Fulfilled (match meals with
                    | MealsArray l => l
                    | MealsNull | MealsMissing => []
                    end)).
Proof.
  unfold fetchRecipesByIngredient. split.
  - destruct (net i) as [|[] [| |meals]]; simpl; split;
      try done; try by eauto 6.
    all: intros [?|[[? ?]|[?|?]]]; done.
  - intros meals ->. by destruct meals.
Qed.

(** ** Timer *)

Lemma timer_run_snoc (ops : list TimerOp) (op : TimerOp) (a : App) :
  timer_run (ops ++ [op]) a = timer_step (timer_run ops a) op.
Proof. unfold timer_run. by rewrite fold_left_app. Qed.

Lemma scenario90_S (n : nat) (a : App) :
  scenario90 (S n) a = timer_step (scenario90 n a) OpTick.
Proof.
  unfold scenario90. rewrite replicate_S_end.
  by rewrite 2!app_comm_cons, timer_run_snoc.
Qed.

Lemma timer_step_tick_scheduled (s : App) (h : nat) (rest : list nat) :
  intervals (browser s) = rest ++ [h] → timer_step s OpTick = tickTimer s.
Proof. simpl. intros ->. by destruct rest. Qed.

(** While the count-down lasts the timer runs on the interval that
    [start()] scheduled, and nothing is announced. *)
Lemma scenario90_counting (a : App) (n : nat) :
  (n ≤ 90)%nat →
  timeRemaining (timerState (state (scenario90 n a))) = 90 - Z.of_nat n
  ∧ isRunning (timerState (state (scenario90 n a))) = true
  ∧ interval (timerState (state (scenario90 n a)))
    = Some (nextHandle (browser a))
  ∧ intervals (browser (scenario90 n a))
    = intervals (browser a) ++ [nextHandle (browser a)]
  ∧ toasts (browser (scenario90 n a)) = toasts (browser a).
Proof.
  induction n as [|n IH]; intros Hn.
  - done.
  - destruct IH as (Hrem & Hrun & Hint & Hints & Htoasts); [lia|].
    rewrite scenario90_S, (timer_step_tick_scheduled _ _ _ Hints).
    unfold tickTimer.
    assert ((0 <? timeRemaining (timerState (state (scenario90 n a)))) = true)
      as -> by lia.
    simpl. rewrite Hrem. repeat split; try done. lia.
Qed.

(** The tick that finds nothing remaining stops the timer and announces
    the end. *)
Lemma scenario90_expiry (a : App) :
  timeRemaining (timerState (state (scenario90 91 a))) = 0
  ∧ isRunning (timerState (state (scenario90 91 a))) = false
  ∧ interval (timerState (state (scenario90 91 a))) = None
  ∧ toasts (browser (scenario90 91 a))
    = toasts (browser a) ++ [timer_finished_message]
  ∧ (nextHandle (browser a) ≠ 0%nat →
     nextHandle (browser a) ∉ intervals (browser (scenario90 91 a))).
Proof.
  destruct (scenario90_counting a 90) as (Hrem & Hrun & Hint & Hints & Htoasts);
    [lia|].
  rewrite scenario90_S. revert Hrem Hrun Hint Hints Htoasts.
  generalize (scenario90 90 a). intros s Hrem Hrun Hint Hints Htoasts.
  rewrite (timer_step_tick_scheduled _ _ _ Hints). unfold tickTimer.
  assert ((0 <? timeRemaining (timerState (state s))) = false) as -> by lia.
  unfold pauseTimer. rewrite Hint. simpl.
  destruct (nextHandle (browser a) =? 0)%nat eqn:Hh; simpl.
  - rewrite Hrem, Htoasts. repeat split; try done.
    intros Hne. apply Nat.eqb_eq in Hh. done.
  - rewrite Hrem, Htoasts. repeat split; try done.
    intros _ [? _]%list_elem_of_filter. done.
Qed.

(** C5, as amended.  From any application value, after [setDuration(90)]
    and [start()] the [n]-th tick, for [n] up to 90, leaves 90 - [n]
    seconds with the timer still running and nothing announced; so the
    90th tick leaves 0 seconds on a running timer.  The 91st tick stops
    the timer (not running, no interval handle held, the interval cleared)
    and shows the finished toast, which is the only toast of the whole
    sequence.  The seconds remaining are never negative after any step of
    the sequence. *)
Theorem timer_90_expires_on_tick_91 (a : App) :
  timeRemaining (timerState (state (setTimer 90 a))) = 90
  ∧ (∀ n : nat, (n ≤ 90)%nat →
       timeRemaining (timerState (state (scenario90 n a))) = 90 - Z.of_nat n
       ∧ isRunning (timerState (state (scenario90 n a))) = true
       ∧ toasts (browser (scenario90 n a)) = toasts (browser a))
  ∧ timer_expired (scenario90 91 a)
  ∧ toasts (browser (scenario90 91 a))
    = toasts (browser a) ++ [timer_finished_message]
  ∧ (nextHandle (browser a) ≠ 0%nat →
     nextHandle (browser a) ∉ intervals (browser (scenario90 91 a)))
  ∧ (∀ n : nat, (n ≤ 91)%nat →
       0 ≤ timeRemaining (timerState (state (scenario90 n a)))).
Proof.
  destruct (scenario90_expiry a) as (Hrem & Hrun & Hint & Htoasts & Hclr).
  split; [done|]. split.
  { intros n Hn.
    destruct (scenario90_counting a n Hn) as (? & ? & _ & _ & ?). done. }
  split; [done|]. split; [done|]. split; [done|].
  intros n Hn. destruct (decide (n = 91%nat)) as [->|Hne].
  - by rewrite Hrem.
  - destruct (scenario90_counting a n) as (-> & _); lia.
Qed.

(** C5, as stated, fails: after [setDuration(90)], [start()] and 90 ticks
    on the initial application the timer shows 0 seconds but has not
    expired; it is still running on its interval and has announced
    nothing. *)
Lemma timer_not_expired_at_tick_90 :
  ¬ timer_expired (scenario90 90 initial_app)
  ∧ timeRemaining (timerState (state (scenario90 90 initial_app))) = 0
  ∧ isRunning (timerState (state (scenario90 90 initial_app))) = true
  ∧ intervals (browser (scenario90 90 initial_app)) = [1%nat]
  ∧ toasts (browser (scenario90 90 initial_app)) = [].
Proof.
  split; [|by vm_compute].
  intros [Hrun _]. by vm_compute in Hrun.
Qed.

(** C4 on the code: two [start()] calls in a row on the initial
    application leave two scheduled intervals.  [timerState.interval]
    holds the second handle only, so [pause()] clears that one and the
    first keeps ticking: two ticks arrive for every second, and after
    [pause()] (or [reset()]) one tick source is still scheduled. *)
Theorem double_start_schedules_two_tick_sources :
  active_tick_sources (timer_run [OpStart; OpStart] initial_app) = 2%nat
  ∧ intervals (browser (timer_run [OpStart; OpStart] initial_app))
    = [1%nat; 2%nat]
  ∧ interval (timerState (state (timer_run [OpStart; OpStart] initial_app)))
    = Some 2%nat
  ∧ intervals (browser (timer_run [OpStart; OpStart; OpPause] initial_app))
    = [1%nat]
  ∧ intervals (browser (timer_run [OpStart; OpStart; OpReset] initial_app))
    = [1%nat]
  ∧ timeRemaining
      (timerState
         (state (timer_run [OpStart; OpStart; OpPause; OpTick] initial_app)))
    = 299.
Proof. by vm_compute. Qed.

(** C8, as stated, fails: an [ok] response whose body is a JSON object
    without a [meals] property is not an error; the call is fulfilled with
    no recipes. *)
Lemma fetch_without_meals_is_fulfilled :
  fetchRecipesByIngredient
    (fun _ => Response true (JsonObject MealsMissing)) "chicken"
  = Fulfilled []
  ∧ ¬ (∀ (net : Catalog) (i : string),
         net i = Response true (JsonObject MealsMissing) →
         is_rejected (fetchRecipesByIngredient net i) = true).
Proof.
  split; [done|].
  intros Hclaim.
  specialize (Hclaim (fun _ => Response true (JsonObject MealsMissing))
                     "chicken" eq_refl).
  discriminate Hclaim.
Qed.

Lemma search_all_or_nothing_witness :
  "rice" ∈ selectedIngredients (state Scenario.app_chicken_rice)
  ∧ (∃ body, Scenario.catalog_rice_down "rice" = Response false body)
  ∧ allRecipes
      (state (searchRecipes Scenario.catalog_rice_down Scenario.rand_low
                            Scenario.app_chicken_rice))
    = [Scenario.recipeOld].
Proof.
  assert ("rice" ∈ selectedIngredients (state Scenario.app_chicken_rice))
    as Hin by (simpl; repeat constructor).
  assert (∃ body, Scenario.catalog_rice_down "rice" = Response false body)
    as Hdown by (by exists NotJson).
  split; [exact Hin|]. split; [exact Hdown|].
  exact (proj1 (proj2 (proj2 (proj2
           (search_all_or_nothing Scenario.catalog_rice_down Scenario.rand_low
              Scenario.app_chicken_rice "rice" Hin
              (or_intror (or_introl Hdown))))))).
Defined.

(** C1, as stated, fails on a malformed payload: with chicken and rice
    selected and the request for rice answered by an [ok] response whose
    body has no [meals] field, the search does not fail.  No error is set,
    the grid is shown, and the old list is replaced by what the request
    for chicken returned. *)
Lemma search_merges_payload_without_meals :
  (let net : Catalog :=
     fun i => if bool_decide (i = "rice")
              then Response true (JsonObject MealsMissing)
              else Scenario.catalog_up i in
   let a := searchRecipes net Scenario.rand_low Scenario.app_chicken_rice in
   error (state a) = None
   ∧ screen (browser a) = GridScreen
   ∧ allRecipes (state a)
     = [mkAnnotated Scenario.recipeA ["chicken"; "rice"]]
   ∧ allRecipes (state a) ≠ allRecipes (state Scenario.app_chicken_rice))
  ∧ ¬ (∀ (net : Catalog) (rand : nat → float) (a : App) (i : string),
         i ∈ selectedIngredients (state a) →
         net i = Response true (JsonObject MealsMissing) →
         error (state (searchRecipes net rand a)) = Some search_failed_message
         ∧ allRecipes (state (searchRecipes net rand a))
           = allRecipes (state a)).
Proof.
  split; [by vm_compute|].
  intros Hclaim.
  destruct (Hclaim
              (fun i => if bool_decide (i = "rice")
                        then Response true (JsonObject MealsMissing)
                        else Scenario.catalog_up i)
              Scenario.rand_low Scenario.app_chicken_rice "rice")
    as [Herr _]; [simpl; repeat constructor|done|].
  by vm_compute in Herr.
Qed.

Lemma search_dedup_first_seen_witness :
  NoDup (map idMeal
           (map recipe
              (allRecipes
                 (state (searchRecipes Scenario.catalog_up Scenario.rand_low
                                       Scenario.app_chicken_rice)))))
  ∧ map recipe
      (allRecipes
         (state (searchRecipes Scenario.catalog_up Scenario.rand_low
                               Scenario.app_chicken_rice)))
    = [Scenario.recipeA; Scenario.recipeB].
Proof.
  assert (selectedIngredients (state Scenario.app_chicken_rice) ≠ [])
    as Hne by discriminate.
  assert (Forall2
            (fun i rs =>
               fetchRecipesByIngredient Scenario.catalog_up i = Fulfilled rs)
            (JSSet.to_array
               (selectedIngredients (state Scenario.app_chicken_rice)))
            [[Scenario.recipeA]; [Scenario.recipeA; Scenario.recipeB]])
    as Hok by (repeat constructor).
  split; [|reflexivity].
  exact (proj1 (search_dedup_first_seen Scenario.catalog_up Scenario.rand_low
                  Scenario.app_chicken_rice _ Hne Hok)).
Defined.

Lemma matching_ingredients_prefix_witness :
  matchingIngredients (mkAnnotated Scenario.recipeB ["chicken"; "rice"])
  = take (Nat.min 2 3) ["chicken"; "rice"]
  ∧ length (matchingIngredients
              (mkAnnotated Scenario.recipeB ["chicken"; "rice"]))
    = Nat.min 2 3.
Proof.
  assert (selectedIngredients (state Scenario.app_chicken_rice) ≠ [])
    as Hne by discriminate.
  assert (is_rejected
            (Promise_all
               (searchPromises Scenario.catalog_up
                  (selectedIngredients (state Scenario.app_chicken_rice))))
          = false) as Hok by reflexivity.
  assert (mkAnnotated Scenario.recipeB ["chicken"; "rice"]
          ∈ allRecipes
              (state (searchRecipes Scenario.catalog_up Scenario.rand_low
                                    Scenario.app_chicken_rice))) as Hin.
  { apply (bool_decide_unpack _). vm_compute. exact I. }
  exact (matching_ingredients_prefix Scenario.catalog_up Scenario.rand_low
           Scenario.app_chicken_rice _ Hne Hok Hin).
Defined.

Lemma applyFilters_identity_witness :
  filteredRecipes
    (state (applyFilters Scenario.rand_low Scenario.app_chicken_rice))
  = [Scenario.recipeOld]
  ∧ allRecipes
      (state (applyFilters Scenario.rand_low Scenario.app_chicken_rice))
    = [Scenario.recipeOld].
Proof.
  exact (applyFilters_identity Scenario.rand_low Scenario.app_chicken_rice
           eq_refl).
Defined.

Lemma applyFilters_deterministic_witness :
  applyFilters Scenario.rand_low Scenario.app_filtered
  = applyFilters Scenario.rand_high Scenario.app_filtered
  ∧ filteredRecipes
      (state (applyFilters Scenario.rand_low Scenario.app_filtered))
    = [mkAnnotated Scenario.recipeA ["chicken"]].
Proof.
  split; [|reflexivity].
  exact (proj1 (applyFilters_deterministic_without_time Scenario.rand_low
                  Scenario.rand_high Scenario.app_filtered eq_refl)).
Defined.

Lemma addIngredient_with_keeps_invariant_witness :
  NormalizedSet Str.toLowerCase Str.trim
    (selectedIngredients (state Scenario.app_chicken_rice))
  ∧ addIngredient_with Str.toLowerCase Str.trim "  Rice "
      Scenario.app_chicken_rice
    = (Scenario.app_chicken_rice, None)
  ∧ selectedIngredients
      (state (addIngredient_with Str.toLowerCase Str.trim " Garlic"
                Scenario.app_chicken_rice).1)
    = ["chicken"; "rice"; "garlic"].
Proof.
  assert (NormalizedSet Str.toLowerCase Str.trim
            (selectedIngredients (state Scenario.app_chicken_rice))) as Hinv.
  { split; [by apply (bool_decide_unpack _)|].
    repeat constructor; [by exists "chicken" | by exists "rice"]. }
  split; [exact Hinv|]. split.
  - apply (addIngredient_with_keeps_invariant Str.toLowerCase Str.trim
             "  Rice " Scenario.app_chicken_rice Hinv).
    right. simpl. repeat constructor.
  - apply (addIngredient_with_keeps_invariant Str.toLowerCase Str.trim
             " Garlic" Scenario.app_chicken_rice Hinv).
    + discriminate.
    + apply (bool_decide_unpack _). by vm_compute.
Defined.

(** * Further properties *)

(** ** Strings *)

Lemma trim_chars_idemp (l : list ascii) :
  Str.trimEnd_chars (Str.trimStart_chars (Str.trimEnd_chars (Str.trimStart_chars l)))
  = Str.trimEnd_chars (Str.trimStart_chars l).
Proof.
  rewrite (StrFacts.trimStart_chars_id (Str.trimEnd_chars _))
    by apply StrFacts.trimEnd_chars_clean, StrFacts.trimStart_chars_clean.
  apply StrFacts.trimEnd_chars_idemp.
Qed.

Lemma toLowerCase_idemp (s : string) :
  Str.toLowerCase (Str.toLowerCase s) = Str.toLowerCase s.
Proof.
  unfold Str.toLowerCase. rewrite list_ascii_of_string_of_list_ascii, map_map.
  f_equal. apply map_ext, StrFacts.lower_char_idemp.
Qed.

Lemma truthy_toLowerCase (s : string) :
  Str.truthy (Str.toLowerCase s) = Str.truthy s.
Proof. by destruct s. Qed.

Lemma normalize_trim (s : string) : normalize (Str.trim s) = normalize s.
Proof.
  unfold normalize, Str.trim, Str.toLowerCase.
  rewrite !list_ascii_of_string_of_list_ascii. f_equal.
  rewrite StrFacts.map_lower_trimEnd, StrFacts.map_lower_trimStart.
  apply trim_chars_idemp.
Qed.

Lemma normalize_blank (s : string) : Str.trim s = "" → normalize s = "".
Proof.
  unfold normalize, Str.trim, Str.toLowerCase. intros Hblank.
  apply (f_equal list_ascii_of_string) in Hblank.
  rewrite list_ascii_of_string_of_list_ascii in Hblank. simpl in Hblank.
  rewrite list_ascii_of_string_of_list_ascii.
  by rewrite <- StrFacts.map_lower_trimStart, <- StrFacts.map_lower_trimEnd,
    Hblank.
Qed.

(** [addIngredient] looks at its argument through [normalize] only. *)
Lemma addIngredient_normalize_eq (x y : string) (a : App) :
  normalize x = normalize y → addIngredient x a = addIngredient y a.
Proof. intros Heq. unfold addIngredient. by rewrite Heq. Qed.

(** What [addIngredient] does to the set when it does add. *)
Lemma addIngredient_keeps_set (input : string) (a : App) :
  normalize input ≠ "" →
  normalize input ∉ selectedIngredients (state a) →
  selectedIngredients (state (addIngredient input a).1)
  = selectedIngredients (state a) ++ [normalize input]
  ∧ (addIngredient input a).2
    = Some (selectedIngredients (state a) ++ [normalize input]).
Proof.
  intros Hne Hnin. unfold addIngredient, JSSet.has.
  rewrite (proj2 (StrFacts.truthy_true _) Hne).
  rewrite (bool_decide_eq_false_2 _ Hnin). simpl.
  rewrite searchRecipes_begin_selected. simpl.
  unfold JSSet.add, JSSet.has. rewrite (bool_decide_eq_false_2 _ Hnin).
  split; [done|].
  unfold searchRecipes_begin, JSSet.size. simpl.
  rewrite (bool_decide_eq_false_2 _ Hnin), length_app. simpl.
  destruct (length (selectedIngredients (state a)) + 1 =? 0)%nat eqn:Hlen.
  - apply Nat.eqb_eq in Hlen. lia.
  - done.
Qed.

(** ** Ingredient input *)

Lemma addIngredient_with_normalize_eq (toLowerCase trim : string → string)
  (x y : string) (a : App) :
  normalize_with toLowerCase trim x = normalize_with toLowerCase trim y →
  addIngredient_with toLowerCase trim x a
  = addIngredient_with toLowerCase trim y a.
Proof. intros Heq. unfold addIngredient_with. by rewrite Heq. Qed.

(** X1.  The Enter branch of [handleSearchKeydown] trims the text of the
    input before it hands it to [addIngredient], which lowercases and
    trims again.  Provided lowercasing does not change what [trim]
    strips (trimming before lowercasing changes nothing once the result
    is trimmed, and the lowercased form of a blank text is blank), the
    branch does to the application exactly what [addIngredient] does with
    the untrimmed text, blank text included; the input is cleared and the
    suggestions are hidden when the text is not blank, and the input is
    left alone when it is. *)
Theorem handleSearchKeydown_enter_is_addIngredient
  (toLowerCase trim : string → string) (box : SearchBox) (a : App) :
  (∀ v, trim (toLowerCase (trim v)) = trim (toLowerCase v)) →
  (∀ v, trim v = "" → trim (toLowerCase v) = "") →
  (handleSearchKeydown toLowerCase trim KeyEnter box a).1
  = addIngredient_with toLowerCase trim (inputValue box) a
  ∧ (handleSearchKeydown toLowerCase trim KeyEnter box a).2
    = (if Str.truthy (trim (inputValue box)) then mkSearchBox "" [] else box).
Proof.
  intros Htrim Hblank. split.
  - simpl. destruct (Str.truthy (trim (inputValue box))) eqn:Hv; simpl.
    + apply addIngredient_with_normalize_eq, Htrim.
    + assert (trim (inputValue box) = "") as Hempty
        by (by destruct (trim (inputValue box))).
      unfold addIngredient_with, normalize_with.
      by rewrite (Hblank _ Hempty).
  - simpl. by destruct (Str.truthy (trim (inputValue box))).
Qed.

(** X2.  Adding an ingredient that was not selected and then removing
    its normal form gives back the ingredient set as it was, order
    included. *)
Theorem addIngredient_removeIngredient_round_trip (input : string) (a : App) :
  normalize input ≠ "" →
  normalize input ∉ selectedIngredients (state a) →
  selectedIngredients
    (state (removeIngredient (normalize input) (addIngredient input a).1).1)
  = selectedIngredients (state a).
Proof.
  intros Hne Hnin.
  destruct (addIngredient_keeps_set input a Hne Hnin) as [Hadd _].
  assert (∀ b token,
            selectedIngredients (state (removeIngredient token b).1)
            = JSSet.delete token (selectedIngredients (state b))) as Hrem.
  { intros b token. unfold removeIngredient. destruct (_ <? _)%nat; [|done].
    by rewrite searchRecipes_begin_selected. }
  rewrite Hrem, Hadd. unfold JSSet.delete, JSSet.t.
  clear Hadd. induction (selectedIngredients (state a)) as [|x l IH];
    cbn [app].
  - by rewrite filter_cons_False, filter_nil by tauto.
  - apply not_elem_of_cons in Hnin as [Hx Hl].
    rewrite filter_cons_True by done. by rewrite IH.
Qed.

(** ** Lists *)

Lemma bool_filter_sublist {A} (f : A → bool) (l : list A) :
  List.filter f l `sublist_of` l.
Proof.
  induction l as [|x l IH]; simpl; [constructor|].
  destruct (f x); by constructor.
Qed.

Lemma bool_filter_elem {A} (f : A → bool) (l : list A) (x : A) :
  x ∈ List.filter f l ↔ (x ∈ l ∧ f x = true).
Proof. rewrite !list_elem_of_In. apply filter_In. Qed.

Lemma filter_random_sublist {A} threshold rand i (l : list A) :
  filter_random threshold rand i l `sublist_of` l.
Proof.
  revert i. induction l as [|x l IH]; intros i; simpl; [constructor|].
  destruct (PrimFloat.ltb _ _); by constructor.
Qed.

(** ** Suggestions *)

(** Every searchable ingredient is written in lower case, trimmed and not
    empty. *)
Lemma searchableIngredients_normal :
  Forall (fun s => Str.toLowerCase s = s ∧ normalize s = s ∧ s ≠ "")
         searchableIngredients.
Proof. apply (bool_decide_unpack _). by vm_compute. Qed.

(** X3.  The suggestion container never gets more than six entries; they
    are searchable ingredients in the order of the searchable list; each
    contains the query and is not selected yet; and a click on an entry
    appends exactly that entry to the selected ingredients. *)
Theorem showSuggestions_sound (query : string) (box : SearchBox) (a : App) :
  (length (showSuggestions query a) ≤ 6)%nat
  ∧ showSuggestions query a `sublist_of` searchableIngredients
  ∧ (∀ s, s ∈ showSuggestions query a →
       Text.includes s query = true
       ∧ (s ∉ selectedIngredients (state a))
       ∧ selectedIngredients (state (clickSuggestion s box a).1.1)
         = selectedIngredients (state a) ++ [s]).
Proof.
  unfold showSuggestions. rewrite Array_slice_prefix by lia.
  split; [rewrite length_take; lia|].
  split.
  { etrans; [apply sublist_take|apply bool_filter_sublist]. }
  intros s Hs.
  pose proof (elem_of_sublist _ _ _ Hs (sublist_take _ _)) as Hs'.
  apply bool_filter_elem in Hs' as [Hin Hf].
  apply (proj1 (Forall_forall _ _) searchableIngredients_normal) in Hin
    as (Hlow & Hnorm & Hne).
  rewrite Hlow in Hf. apply andb_true_iff in Hf as [Hinc Hsel].
  apply negb_true_iff, bool_decide_eq_false in Hsel.
  split; [done|]. split; [done|].
  simpl.
  destruct (addIngredient_keeps_set s a) as [Hadd _]; rewrite ?Hnorm; try done.
  by rewrite Hadd, Hnorm.
Qed.

(** ** Filter engine, continued *)

Lemma applyFilters_filteredRecipes rand (a : App) :
  filteredRecipes (state (applyFilters rand a))
  = (let crit := currentFilter (state a) in
     let l := allRecipes (state a) in
     let l := if Str.truthy (category crit)
              then List.filter
                     (fun r => tag_matches (strCategory (recipe r)) (category crit)) l
              else l in
     let l := if Str.truthy (area crit)
              then List.filter
                     (fun r => tag_matches (strArea (recipe r)) (area crit)) l
              else l in
     if Str.truthy (time crit)
     then filter_random (1 - time_ratio (time crit))%float rand 0 l
     else l).
Proof. unfold applyFilters. by rewrite renderRecipeGrid_filteredRecipes. Qed.

Lemma tag_matches_true (tag : option string) (wanted : string) :
  tag_matches tag wanted = true
  ↔ ∃ t, tag = Some t ∧ t ≠ "" ∧ Str.toLowerCase t = Str.toLowerCase wanted.
Proof.
  destruct tag as [t|]; simpl.
  - rewrite andb_true_iff, StrFacts.truthy_true, bool_decide_eq_true.
    split; [intros [? ?]; by exists t | by intros (? & [= <-] & ? & ?)].
  - split; [done | by intros (? & ? & _)].
Qed.

(** X4.  Whatever the criteria and whatever [Math.random] returns,
    [applyFilters] displays recipes of [allRecipes] only, each at most as
    often as it is stored and in the stored order; [allRecipes] itself is
    not changed. *)
Theorem applyFilters_stable (rand : nat → float) (a : App) :
  filteredRecipes (state (applyFilters rand a)) `sublist_of` allRecipes (state a)
  ∧ allRecipes (state (applyFilters rand a)) = allRecipes (state a).
Proof.
  split; [|apply applyFilters_allRecipes].
  rewrite applyFilters_filteredRecipes. cbv zeta.
  destruct (Str.truthy (time _)).
  - etrans; [apply filter_random_sublist|].
    destruct (Str.truthy (area _)).
    + etrans; [apply bool_filter_sublist|].
      destruct (Str.truthy (category _)); [apply bool_filter_sublist|done].
    + destruct (Str.truthy (category _)); [apply bool_filter_sublist|done].
  - destruct (Str.truthy (area _)).
    + etrans; [apply bool_filter_sublist|].
      destruct (Str.truthy (category _)); [apply bool_filter_sublist|done].
    + destruct (Str.truthy (category _)); [apply bool_filter_sublist|done].
Qed.

(** X5.  Every displayed recipe satisfies the category and area criteria
    that are set: when a criterion is not empty the recipe has that tag,
    the tag is not empty, and it equals the criterion up to letter case.
    A recipe without the tag is never displayed under a set criterion. *)
Theorem applyFilters_sound (rand : nat → float) (a : App) (r : AnnotatedRecipe) :
  r ∈ filteredRecipes (state (applyFilters rand a)) →
  (category (currentFilter (state a)) ≠ "" →
   ∃ c, strCategory (recipe r) = Some c ∧ c ≠ ""
        ∧ Str.toLowerCase c = Str.toLowerCase (category (currentFilter (state a))))
  ∧ (area (currentFilter (state a)) ≠ "" →
     ∃ c, strArea (recipe r) = Some c ∧ c ≠ ""
          ∧ Str.toLowerCase c = Str.toLowerCase (area (currentFilter (state a)))).
Proof.
  rewrite applyFilters_filteredRecipes. cbv zeta. intros Hin.
  assert (r ∈ (if Str.truthy (area (currentFilter (state a)))
               then List.filter
                      (fun r => tag_matches (strArea (recipe r))
                                            (area (currentFilter (state a))))
                      (if Str.truthy (category (currentFilter (state a)))
                       then List.filter
                              (fun r => tag_matches (strCategory (recipe r))
                                          (category (currentFilter (state a))))
                              (allRecipes (state a))
                       else allRecipes (state a))
               else (if Str.truthy (category (currentFilter (state a)))
                     then List.filter
                            (fun r => tag_matches (strCategory (recipe r))
                                        (category (currentFilter (state a))))
                            (allRecipes (state a))
                     else allRecipes (state a)))) as Hin'.
  { destruct (Str.truthy (time _)); [|done].
    eapply elem_of_sublist; [exact Hin|apply filter_random_sublist]. }
  clear Hin. split.
  - intros Hc%StrFacts.truthy_true. rewrite Hc in Hin'.
    apply tag_matches_true.
    destruct (Str.truthy (area _)).
    + apply bool_filter_elem in Hin' as [Hin' _].
      by apply bool_filter_elem in Hin' as [_ ?].
    + by apply bool_filter_elem in Hin' as [_ ?].
  - intros Hc%StrFacts.truthy_true. rewrite Hc in Hin'.
    apply tag_matches_true. by apply bool_filter_elem in Hin' as [_ ?].
Qed.

(** [applyFilters] reads [allRecipes] and [currentFilter] and writes
    [filteredRecipes] and the visible container: the application it
    returns is the given one with those two replaced. *)
Lemma applyFilters_writes rand (a : App) :
  applyFilters rand a
  = mkApp (set_filteredRecipes (filteredRecipes (state (applyFilters rand a)))
                               (state a))
          (currentRecipe a)
          (set_screen (screen (browser (applyFilters rand a))) (browser a)).
Proof.
  unfold applyFilters, renderRecipeGrid.
  match goal with
  | |- context [with_state (set_filteredRecipes ?l) a] => generalize l
  end.
  intros l. destruct a as [st cr br], st, br. by destruct l.
Qed.

Lemma applyFilters_ext rand (a b : App) :
  allRecipes (state a) = allRecipes (state b) →
  currentFilter (state a) = currentFilter (state b) →
  filteredRecipes (state (applyFilters rand a))
  = filteredRecipes (state (applyFilters rand b))
  ∧ screen (browser (applyFilters rand a))
    = screen (browser (applyFilters rand b)).
Proof.
  intros Hall Hcrit.
  assert (filteredRecipes (state (applyFilters rand a))
          = filteredRecipes (state (applyFilters rand b))) as Hf.
  { rewrite !applyFilters_filteredRecipes. by rewrite Hall, Hcrit. }
  split; [done|].
  unfold applyFilters in *. unfold renderRecipeGrid.
  rewrite !renderRecipeGrid_filteredRecipes in Hf. simpl in Hf.
  simpl. rewrite Hf.
  match goal with
  | |- context [match ?l with [] => _ | _ :: _ => _ end] => by destruct l
  end.
Qed.

Lemma set_criterion_twice kind v1 v2 (c : FilterCriteria) :
  set_criterion kind v2 (set_criterion kind v1 c) = set_criterion kind v2 c.
Proof. by destruct kind. Qed.

(** X6.  Filters do not pile up: choosing a value in a filter select
    after another value of the same select gives the application that
    choosing the second value alone gives, because every choice filters
    [allRecipes] afresh. *)
Theorem handleFilterChange_overwrites
  (kind : FilterKind) (v1 v2 : string) (rand1 rand2 : nat → float) (a : App) :
  handleFilterChange kind v2 rand2 (handleFilterChange kind v1 rand1 a)
  = handleFilterChange kind v2 rand2 a.
Proof.
  unfold handleFilterChange.
  rewrite (applyFilters_writes rand2 (with_state _ (applyFilters rand1 _))).
  rewrite (applyFilters_writes rand2 (with_state _ a)).
  destruct (applyFilters_ext rand2
              (with_state
                 (fun s => set_currentFilter
                             (set_criterion kind v2 (currentFilter s)) s)
                 (applyFilters rand1
                    (with_state
                       (fun s => set_currentFilter
                                   (set_criterion kind v1 (currentFilter s)) s)
                       a)))
              (with_state
                 (fun s => set_currentFilter
                             (set_criterion kind v2 (currentFilter s)) s) a))
    as [-> ->].
  - simpl. by rewrite applyFilters_allRecipes.
  - simpl. rewrite (applyFilters_writes rand1). simpl.
    by rewrite set_criterion_twice.
  - rewrite (applyFilters_writes rand1). simpl.
    rewrite set_criterion_twice.
    by destruct a as [st cr br], st, br.
Qed.

Lemma tag_matches_lower (tag : option string) (v1 v2 : string) :
  Str.toLowerCase v1 = Str.toLowerCase v2 →
  tag_matches tag v1 = tag_matches tag v2.
Proof. intros Heq. destruct tag; simpl; by rewrite ?Heq. Qed.

(** X7.  The category and area selects are blind to letter case: two
    values that agree once lowercased display the same recipes and the
    same container. *)
Theorem handleFilterChange_ignores_case
  (kind : FilterKind) (v1 v2 : string) (rand : nat → float) (a : App) :
  kind ≠ FilterTime →
  Str.toLowerCase v1 = Str.toLowerCase v2 →
  filteredRecipes (state (handleFilterChange kind v1 rand a))
  = filteredRecipes (state (handleFilterChange kind v2 rand a))
  ∧ screen (browser (handleFilterChange kind v1 rand a))
    = screen (browser (handleFilterChange kind v2 rand a)).
Proof.
  intros Hkind Heq.
  assert (Str.truthy v1 = Str.truthy v2) as Htruthy.
  { by rewrite <- (truthy_toLowerCase v1), <- (truthy_toLowerCase v2), Heq. }
  assert (filteredRecipes (state (handleFilterChange kind v1 rand a))
          = filteredRecipes (state (handleFilterChange kind v2 rand a))) as Hf.
  { unfold handleFilterChange. rewrite !applyFilters_filteredRecipes.
    destruct kind; [done| |]; simpl; rewrite Htruthy.
    - destruct (Str.truthy v2); [|done].
      by rewrite (List.filter_ext _ _
                    (fun r => tag_matches_lower (strCategory (recipe r)) v1 v2 Heq)).
    - destruct (Str.truthy v2); [|done].
      by rewrite (List.filter_ext _ _
                    (fun r => tag_matches_lower (strArea (recipe r)) v1 v2 Heq)). }
  split; [done|].
  unfold handleFilterChange, applyFilters in *.
  rewrite !renderRecipeGrid_filteredRecipes in Hf. simpl in Hf.
  unfold renderRecipeGrid. simpl. rewrite Hf.
  match goal with
  | |- context [match ?l with [] => _ | _ :: _ => _ end] => by destruct l
  end.
Qed.

(** ** Servings *)

(** X8.  The serving count is at least 1 after any non-empty sequence of
    adjustments, whatever it was before; one more and one less brings a
    count of at least 1 back to where it was; and one less at a count of
    1 leaves it at 1. *)
Theorem adjustServings_at_least_one (a : App) (change : Z) (changes : list Z) :
  1 ≤ currentServings
        (state (fold_left (fun b c => adjustServings c b) (change :: changes) a))
  ∧ (1 ≤ currentServings (state a) →
     adjustServings (-1) (adjustServings 1 a) = a)
  ∧ (currentServings (state a) = 1 → adjustServings (-1) a = a).
Proof.
  split.
  - assert (∀ b, 1 ≤ currentServings (state b) →
                 1 ≤ currentServings
                       (state (fold_left (fun b c => adjustServings c b) changes b)))
      as Hkeep.
    { induction changes as [|c cs IH]; intros b Hb; simpl; [done|].
      apply IH. simpl. lia. }
    simpl. apply Hkeep. simpl. lia.
  - destruct a as [st cr br], st.
    unfold adjustServings, with_state, set_currentServings. simpl.
    split; intros Hs; do 2 f_equal; lia.
Qed.

(** ** Search, continued *)

Lemma searchRecipes_begin_error_cleared (a : App) :
  selectedIngredients (state a) ≠ [] →
  searchRecipes_begin (with_state (set_error None) a) = searchRecipes_begin a.
Proof.
  intros Hne. unfold searchRecipes_begin, JSSet.size. simpl.
  by destruct (selectedIngredients (state a)).
Qed.

(** X9.  With ingredients selected, the retry button runs the same search
    a fresh [searchRecipes] runs and leaves the same application; with none
    selected it clears the error and shows the empty container, asking the
    catalog nothing. *)
Theorem retrySearch_is_searchRecipes
  (net : Catalog) (rand : nat → float) (a : App) :
  match selectedIngredients (state a) with
  | [] => retrySearch net rand a
          = renderEmptyState (with_state (set_error None) a)
  | _ :: _ => retrySearch net rand a = searchRecipes net rand a
  end.
Proof.
  unfold retrySearch, JSSet.size. simpl.
  destruct (selectedIngredients (state a)) eqn:Hsel; simpl; [done|].
  unfold searchRecipes.
  rewrite searchRecipes_begin_error_cleared; [done|]. by rewrite Hsel.
Qed.

(** X10.  A run of [searchRecipes] replaces the recipe lists, the loading
    flag, the error and the visible container, and nothing else: the
    selected ingredients, the filter criteria, the favorites, the serving
    count, the timer, the displayed recipe, the toasts and the scheduled
    intervals are as before. *)
Theorem searchRecipes_frame (net : Catalog) (rand : nat → float) (a : App) :
  selectedIngredients (state (searchRecipes net rand a))
  = selectedIngredients (state a)
  ∧ currentFilter (state (searchRecipes net rand a)) = currentFilter (state a)
  ∧ favorites (state (searchRecipes net rand a)) = favorites (state a)
  ∧ currentServings (state (searchRecipes net rand a))
    = currentServings (state a)
  ∧ timerState (state (searchRecipes net rand a)) = timerState (state a)
  ∧ currentRecipe (searchRecipes net rand a) = currentRecipe a
  ∧ toasts (browser (searchRecipes net rand a)) = toasts (browser a)
  ∧ intervals (browser (searchRecipes net rand a)) = intervals (browser a)
  ∧ nextHandle (browser (searchRecipes net rand a)) = nextHandle (browser a).
Proof.
  unfold searchRecipes, searchRecipes_begin.
  destruct (_ =? _)%nat; [done|].
  destruct (Promise_all _) as [results|e]; [|done].
  unfold searchRecipes_settle. rewrite applyFilters_writes. done.
Qed.

Lemma searchRecipes_nonempty net rand (a : App) i l :
  selectedIngredients (state a) = i :: l →
  searchRecipes net rand a
  = searchRecipes_settle (i :: l) (Promise_all (searchPromises net (i :: l)))
      rand
      (renderLoadingState
         (with_state (set_error None) (with_state (set_isLoading true) a))).
Proof.
  intros Hi. unfold searchRecipes, searchRecipes_begin, JSSet.size.
  rewrite Hi. simpl. unfold JSSet.to_array. by rewrite Hi.
Qed.

(** X11.  For a fixed catalog and fixed values of [Math.random], running
    [searchRecipes] a second time changes nothing: the application after
    two runs is the application after one. *)
Theorem searchRecipes_idempotent (net : Catalog) (rand : nat → float) (a : App) :
  searchRecipes net rand (searchRecipes net rand a) = searchRecipes net rand a.
Proof.
  destruct (decide (selectedIngredients (state a) = [])) as [Hnil|Hne].
  - unfold searchRecipes, searchRecipes_begin, JSSet.size. simpl.
    rewrite Hnil. simpl. by rewrite Hnil.
  - pose proof (searchRecipes_frame net rand a) as (Hsel & _).
    unfold searchRecipes at 1.
    unfold searchRecipes_begin, JSSet.size, JSSet.to_array.
    cbn [state selectedIngredients with_state renderLoadingState with_browser
         set_isLoading set_error].
    rewrite Hsel.
    destruct (selectedIngredients (state a)) as [|i l] eqn:Hi; [done|].
    replace (length (i :: l) =? 0)%nat with false by done.
    clear Hsel. rewrite (searchRecipes_nonempty net rand a i l Hi).
    destruct (Promise_all _) as [results|e].
    + unfold searchRecipes_settle.
      rewrite (applyFilters_writes rand
                 (with_state (set_isLoading false)
                    (with_state (set_allRecipes _)
                       (renderLoadingState (with_state _ (with_state _ a)))))).
      rewrite (applyFilters_writes rand
                 (with_state (set_isLoading false)
                    (with_state (set_allRecipes _)
                       (renderLoadingState
                          (with_state _ (with_state _ (mkApp _ _ _))))))).
      match goal with
      | |- mkApp (set_filteredRecipes
                    (filteredRecipes (state (applyFilters rand ?x))) _) _ _
           = mkApp (set_filteredRecipes
                      (filteredRecipes (state (applyFilters rand ?y))) _) _ _ =>
          destruct (applyFilters_ext rand x y) as [-> ->]; [done|done|]
      end.
      by destruct a as [st cr br], st, br.
    + by destruct a as [st cr br], st, br.
Qed.

(** X12.  A search in which no fetch is rejected never sets [state.error].
    It shows the grid when something is left to display and the error
    container when nothing is; so a search that finds no recipe at all
    ends on the error container with [state.error] still [null]. *)
Theorem search_without_results_shows_error_container
  (net : Catalog) (rand : nat → float) (a : App)
  (results : list (list RawRecipe)) :
  selectedIngredients (state a) ≠ [] →
  Promise_all (searchPromises net (selectedIngredients (state a)))
  = Fulfilled results →
  error (state (searchRecipes net rand a)) = None
  ∧ isLoading (state (searchRecipes net rand a)) = false
  ∧ screen (browser (searchRecipes net rand a))
    = match filteredRecipes (state (searchRecipes net rand a)) with
      | [] => ErrorScreen
      | _ :: _ => GridScreen
      end
  ∧ (concat results = [] →
     allRecipes (state (searchRecipes net rand a)) = []
     ∧ filteredRecipes (state (searchRecipes net rand a)) = []
     ∧ screen (browser (searchRecipes net rand a)) = ErrorScreen).
Proof.
  intros Hne Hall.
  destruct (selectedIngredients (state a)) as [|i l] eqn:Hi; [done|].
  rewrite (searchRecipes_nonempty net rand a i l Hi), Hall.
  unfold searchRecipes_settle.
  assert (∀ b : App,
            screen (browser (applyFilters rand b))
            = match filteredRecipes (state (applyFilters rand b)) with
              | [] => ErrorScreen
              | _ :: _ => GridScreen
              end) as Hscreen.
  { intros b. rewrite applyFilters_filteredRecipes.
    unfold applyFilters, renderRecipeGrid. cbv zeta.
    match goal with
    | |- context [with_state (set_filteredRecipes ?f) b] => generalize f
    end.
    intros f. simpl. by destruct f. }
  rewrite (applyFilters_writes rand). simpl.
  split; [done|]. split; [done|]. split.
  { rewrite Hscreen. by rewrite applyFilters_filteredRecipes. }
  intros Hnil. rewrite Hnil. simpl. split; [done|].
  assert (filteredRecipes
            (state (applyFilters rand
                      (with_state (set_isLoading false)
                         (with_state (set_allRecipes [])
                            (renderLoadingState
                               (with_state (set_error None)
                                  (with_state (set_isLoading true) a)))))))
          = []) as Hf.
  { apply sublist_nil_r.
    by destruct (applyFilters_stable rand
                   (with_state (set_isLoading false)
                      (with_state (set_allRecipes [])
                         (renderLoadingState
                            (with_state (set_error None)
                               (with_state (set_isLoading true) a)))))). }
  split; [done|]. by rewrite Hscreen, Hf.
Qed.

(** ** Deduplication, continued *)

Lemma dedup_from_distinct (seen : gset string) (l : list RawRecipe) :
  NoDup (map idMeal l) → (∀ r, r ∈ l → idMeal r ∉ seen) →
  dedup_from seen l = l.
Proof.
  revert seen. induction l as [|x l IH]; intros seen Hnd Hseen; simpl; [done|].
  apply NoDup_cons in Hnd as [Hx Hnd].
  rewrite bool_decide_eq_false_2 by (apply Hseen; by left).
  f_equal. apply IH; [done|].
  intros r Hr. apply not_elem_of_union. split.
  - apply not_elem_of_singleton. intros Heq. apply Hx.
    apply list_elem_of_fmap. by exists r.
  - apply Hseen. by right.
Qed.

Lemma deduplicateRecipes_ids (l : list RawRecipe) (id : string) :
  id ∈ map idMeal (deduplicateRecipes l) ↔ id ∈ map idMeal l.
Proof.
  unfold deduplicateRecipes. rewrite !list_elem_of_fmap. split.
  - intros (r & -> & Hr). exists r. split; [done|].
    eapply elem_of_sublist; [exact Hr|apply dedup_from_sublist].
  - intros (x & -> & Hx).
    destruct (first_with_id_elem _ _ Hx) as (r & Hr & Hid).
    exists r. split; [done|]. apply dedup_from_first.
    split; [apply not_elem_of_empty|]. by rewrite Hid.
Qed.

(** X13.  [deduplicateRecipes] returns a list whose identifiers do not
    repeat unchanged, so it changes nothing when applied a second time;
    it never returns more records than it is given, and it keeps every
    identifier it is given. *)
Theorem deduplicateRecipes_fixpoint (l : list RawRecipe) :
  (NoDup (map idMeal l) → deduplicateRecipes l = l)
  ∧ deduplicateRecipes (deduplicateRecipes l) = deduplicateRecipes l
  ∧ (length (deduplicateRecipes l) ≤ length l)%nat
  ∧ (∀ id, id ∈ map idMeal (deduplicateRecipes l) ↔ id ∈ map idMeal l).
Proof.
  assert (∀ k, NoDup (map idMeal k) → deduplicateRecipes k = k) as Hid.
  { intros k Hnd. apply dedup_from_distinct; [done|].
    intros r _. apply not_elem_of_empty. }
  split; [apply Hid|]. split; [apply Hid, dedup_from_NoDup|].
  split; [apply sublist_length, dedup_from_sublist|].
  apply deduplicateRecipes_ids.
Qed.

Lemma Promise_all_map_fulfilled {A B} (f : B → Settled A) (g : B → A)
  (xs : list B) :
  (∀ x, x ∈ xs → f x = Fulfilled (g x)) →
  Promise_all (map f xs) = Fulfilled (map g xs).
Proof.
  intros Hf. apply Promise_all_fulfilled.
  induction xs as [|x xs IH]; simpl; constructor.
  - apply Hf. by left.
  - apply IH. intros y Hy. apply Hf. by right.
Qed.

Lemma elem_of_concat_map {A B} (f : A → list B) (l : list A) (y : B) :
  y ∈ concat (map f l) ↔ ∃ x, x ∈ l ∧ y ∈ f x.
Proof.
  rewrite list_elem_of_In, in_concat. split.
  - intros (k & Hk & Hy). apply in_map_iff in Hk as (x & <- & Hx).
    exists x. by rewrite !list_elem_of_In.
  - intros (x & Hx & Hy). exists (f x).
    rewrite <- !list_elem_of_In. split; [|done].
    apply list_elem_of_fmap. by exists x.
Qed.

(** X14.  The identifiers a successful search stores do not depend on the
    order in which the ingredients were selected: for two applications
    whose ingredient sets have the same members, the stored identifiers
    are the same up to their order (each occurring once). *)
Theorem search_ids_independent_of_selection_order
  (net : Catalog) (rand1 rand2 : nat → float) (a b : App)
  (found : string → list RawRecipe) :
  selectedIngredients (state a) ≠ [] →
  selectedIngredients (state a) ≡ₚ selectedIngredients (state b) →
  (∀ i, i ∈ selectedIngredients (state a) →
        fetchRecipesByIngredient net i = Fulfilled (found i)) →
  map (fun r => idMeal (recipe r)) (allRecipes (state (searchRecipes net rand1 a)))
  ≡ₚ map (fun r => idMeal (recipe r))
         (allRecipes (state (searchRecipes net rand2 b))).
Proof.
  intros Hne Hperm Hfound.
  assert (selectedIngredients (state b) ≠ []) as Hneb.
  { intros Hnil. rewrite Hnil in Hperm. by apply Permutation_nil_r in Hperm. }
  assert (∀ i, i ∈ selectedIngredients (state b) →
               fetchRecipesByIngredient net i = Fulfilled (found i)) as Hfoundb.
  { intros i Hi. apply Hfound. by rewrite Hperm. }
  rewrite (searchRecipes_fulfilled net rand1 a _ Hne
             (Promise_all_map_fulfilled _ _ _ Hfound)).
  rewrite (searchRecipes_fulfilled net rand2 b _ Hneb
             (Promise_all_map_fulfilled _ _ _ Hfoundb)).
  rewrite !map_map. simpl.
  apply NoDup_Permutation; [apply dedup_from_NoDup..|].
  intros id. rewrite !deduplicateRecipes_ids, !list_elem_of_fmap.
  split; intros (r & -> & Hr); exists r; (split; [done|]);
    apply elem_of_concat_map in Hr as (i & Hi & Hr);
    apply elem_of_concat_map; exists i; (split; [|done]).
  - by rewrite <- Hperm.
  - by rewrite Hperm.
Qed.

(** ** Overlapping searches *)

Lemma searchRecipes_settle_selected ingredients results rand (b : App) :
  selectedIngredients (state (searchRecipes_settle ingredients results rand b))
  = selectedIngredients (state b).
Proof.
  destruct results as [rs|e]; simpl; [|done].
  by rewrite applyFilters_writes.
Qed.

Lemma searchRecipes_settle_fulfilled ingredients rs rand (b : App) :
  allRecipes (state (searchRecipes_settle ingredients (Fulfilled rs) rand b))
  = map (fun r => mkAnnotated r (getMatchingIngredients r ingredients))
        (deduplicateRecipes (concat rs)).
Proof. simpl. by rewrite applyFilters_allRecipes. Qed.

(** X15.  Searches in flight are not told apart.  When two ingredients
    are added one after the other, each starts its own search; if the
    search started first settles last and is fulfilled, the list stored
    in the end is the result of that older search, for the ingredient
    set without the second ingredient, although both ingredients are
    selected. *)
Theorem stale_search_overwrites_newer
  (net : Catalog) (rand1 rand2 : nat → float) (a : App) (x y : string) :
  normalize x ≠ "" → normalize y ≠ "" →
  normalize x ∉ selectedIngredients (state a) →
  normalize y ∉ selectedIngredients (state a) →
  normalize x ≠ normalize y →
  is_rejected
    (Promise_all
       (searchPromises net (selectedIngredients (state a) ++ [normalize x])))
  = false →
  let older := selectedIngredients (state a) ++ [normalize x] in
  let newer := (selectedIngredients (state a) ++ [normalize x]) ++ [normalize y] in
  let s1 := addIngredient x a in
  let s2 := addIngredient y s1.1 in
  let newer_settled :=
    searchRecipes_settle newer (Promise_all (searchPromises net newer)) rand2 s2.1 in
  let older_settled :=
    searchRecipes_settle older (Promise_all (searchPromises net older)) rand1
                         newer_settled in
  s1.2 = Some older
  ∧ s2.2 = Some newer
  ∧ selectedIngredients (state older_settled) = newer
  ∧ allRecipes (state older_settled)
    = allRecipes (state (searchRecipes net rand1 s1.1)).
Proof.
  intros Hx Hy Hxn Hyn Hxy Hok older newer s1 s2 newer_settled older_settled.
  destruct (addIngredient_keeps_set x a Hx Hxn) as [Hsel1 Hp1].
  assert (normalize y ∉ selectedIngredients (state s1.1)) as Hyn1.
  { unfold s1. rewrite Hsel1. apply not_elem_of_app. split; [done|].
    intros Heq%list_elem_of_singleton. congruence. }
  destruct (addIngredient_keeps_set y s1.1 Hy Hyn1) as [Hsel2 Hp2].
  fold s1 in Hsel1. rewrite Hsel1 in Hsel2, Hp2.
  split; [done|]. split; [done|]. split.
  - unfold older_settled, newer_settled.
    by rewrite !searchRecipes_settle_selected.
  - unfold older_settled, older in *.
    destruct (Promise_all
                (searchPromises net
                   (selectedIngredients (state a) ++ [normalize x])))
      as [rs|e] eqn:Hall; [|done].
    rewrite searchRecipes_settle_fulfilled.
    assert (selectedIngredients (state s1.1) ≠ []) as Hne.
    { rewrite Hsel1. by destruct (selectedIngredients (state a)). }
    rewrite (searchRecipes_fulfilled net rand1 s1.1 rs Hne);
      by rewrite Hsel1.
Qed.

(** ** Timer, continued *)

Lemma countdown_S (n : nat) (a : App) :
  countdown (S n) a = timer_step (countdown n a) OpTick.
Proof.
  unfold countdown. rewrite replicate_S_end.
  by rewrite app_comm_cons, timer_run_snoc.
Qed.

Lemma countdown_counting (a : App) (n : nat) :
  Z.of_nat n ≤ start_duration a →
  timeRemaining (timerState (state (countdown n a)))
  = start_duration a - Z.of_nat n
  ∧ isRunning (timerState (state (countdown n a))) = true
  ∧ interval (timerState (state (countdown n a)))
    = Some (nextHandle (browser a))
  ∧ intervals (browser (countdown n a))
    = intervals (browser a) ++ [nextHandle (browser a)]
  ∧ toasts (browser (countdown n a)) = toasts (browser a).
Proof.
  induction n as [|n IH]; intros Hn.
  - unfold countdown, start_duration, timer_run. simpl. unfold startTimer.
    destruct (timeRemaining (timerState (state a)) <=? 0); simpl;
      repeat split; lia.
  - destruct IH as (Hrem & Hrun & Hint & Hints & Htoasts); [lia|].
    rewrite countdown_S, (timer_step_tick_scheduled _ _ _ Hints).
    unfold tickTimer.
    assert ((0 <? timeRemaining (timerState (state (countdown n a)))) = true)
      as -> by lia.
    simpl. rewrite Hrem. repeat split; try done. lia.
Qed.

(** X16.  [start()] counts down from what remains, or from 300 seconds
    when nothing remains: after [n] ticks, [n] up to that duration, the
    timer still runs with the duration less [n] remaining and nothing
    announced.  One tick after reaching 0 the timer stops and shows the
    finished toast, once. *)
Theorem start_counts_down_then_expires (a : App) (n : nat) :
  (Z.of_nat n ≤ start_duration a →
   timeRemaining (timerState (state (countdown n a)))
   = start_duration a - Z.of_nat n
   ∧ isRunning (timerState (state (countdown n a))) = true
   ∧ toasts (browser (countdown n a)) = toasts (browser a))
  ∧ (Z.of_nat n = start_duration a →
     timer_expired (countdown (S n) a)
     ∧ toasts (browser (countdown (S n) a))
       = toasts (browser a) ++ [timer_finished_message])
  ∧ 0 < start_duration a.
Proof.
  split; [|split].
  - intros Hn.
    destruct (countdown_counting a n Hn) as (? & ? & _ & _ & ?). done.
  - intros Hn.
    destruct (countdown_counting a n) as (Hrem & Hrun & Hint & Hints & Htoasts);
      [lia|].
    rewrite countdown_S. revert Hrem Hrun Hint Hints Htoasts.
    generalize (countdown n a). intros s Hrem Hrun Hint Hints Htoasts.
    rewrite (timer_step_tick_scheduled _ _ _ Hints). unfold tickTimer.
    assert ((0 <? timeRemaining (timerState (state s))) = false) as -> by lia.
    unfold pauseTimer, timer_expired. rewrite Hint. simpl.
    destruct (nextHandle (browser a) =? 0)%nat; simpl;
      rewrite Hrem, Htoasts; repeat split; try done; lia.
  - unfold start_duration.
    destruct (timeRemaining (timerState (state a)) <=? 0) eqn:Hle; lia.
Qed.

Lemma timer_step_consistent (a : App) (op : TimerOp) :
  timer_consistent a →
  (op = OpStart → isRunning (timerState (state a)) = false) →
  timer_consistent (timer_step a op).
Proof.
  intros [Hc Hnext] Hstart. unfold timer_consistent in *.
  assert (timer_consistent (pauseTimer a)) as Hpause.
  { unfold timer_consistent, pauseTimer.
    destruct (interval (timerState (state a))) as [h|] eqn:Hh.
    - destruct Hc as (Hints & Hne & Hrun).
      rewrite (proj2 (Nat.eqb_neq h 0) Hne). simpl. rewrite Hints.
      rewrite filter_cons_False, filter_nil by tauto. done.
    - destruct Hc as (Hints & Hrun). simpl. done. }
  destruct op as [seconds| | | |]; simpl.
  - done.
  - specialize (Hstart eq_refl).
    destruct (interval (timerState (state a))) as [h|] eqn:Hh.
    { destruct Hc as (_ & _ & Hrun). congruence. }
    destruct Hc as (Hints & _). unfold startTimer.
    destruct (timeRemaining (timerState (state a)) <=? 0); simpl;
      rewrite Hints; done.
  - exact Hpause.
  - exact Hpause.
  - destruct (intervals (browser a)) eqn:Hints; [rewrite Hints; by split|].
    unfold tickTimer. destruct (0 <? _).
    + simpl. rewrite Hints. by split.
    + exact Hpause.
Qed.

(** X17.  As long as [start()] is only issued while the timer is not
    marked running, the timer and the browser stay in agreement and at
    most one tick source is scheduled: exactly one while the timer is
    marked running, none otherwise. *)
Theorem single_tick_source_when_start_is_guarded
  (ops : list TimerOp) (a : App) :
  timer_consistent a →
  start_only_when_stopped ops a = true →
  timer_consistent (timer_run ops a)
  ∧ active_tick_sources (timer_run ops a)
    = (if isRunning (timerState (state (timer_run ops a))) then 1 else 0)%nat.
Proof.
  intros Hc Hguard.
  assert (timer_consistent (timer_run ops a)) as Hend.
  { revert a Hc Hguard. induction ops as [|op ops IH]; intros a Hc Hguard;
      simpl in *; [done|].
    apply andb_true_iff in Hguard as [Hop Hrest].
    apply IH; [|done]. apply timer_step_consistent; [done|].
    intros ->. by apply negb_true_iff in Hop. }
  split; [done|].
  destruct Hend as [Hend _]. unfold active_tick_sources.
  destruct (interval (timerState (state (timer_run ops a)))).
  - destruct Hend as (-> & _ & ->). done.
  - destruct Hend as (-> & ->). done.
Qed.

Lemma timer_step_nonnegative (a : App) (op : TimerOp) :
  0 ≤ timeRemaining (timerState (state a)) →
  match op with OpSetDuration seconds => 0 ≤ seconds | _ => True end →
  0 ≤ timeRemaining (timerState (state (timer_step a op))).
Proof.
  intros Ha Hop.
  assert (timeRemaining (timerState (state (pauseTimer a)))
          = timeRemaining (timerState (state a))) as Hpause.
  { unfold pauseTimer. destruct (interval _) as [h|]; [|done].
    by destruct (h =? 0)%nat. }
  destruct op as [seconds| | | |]; cbn [timer_step].
  - done.
  - unfold startTimer.
    destruct (timeRemaining (timerState (state a)) <=? 0); simpl; lia.
  - by rewrite Hpause.
  - simpl. lia.
  - destruct (intervals (browser a)); [done|]. unfold tickTimer.
    destruct (0 <? timeRemaining (timerState (state a))) eqn:Hpos.
    + simpl. lia.
    + change (0 ≤ timeRemaining (timerState (state (pauseTimer a)))).
      by rewrite Hpause.
Qed.

(** X18.  The seconds remaining never become negative: from a timer with
    no negative remainder, no sequence of timer controls and ticks in
    which every duration set is non-negative leads to a negative
    remainder. *)
Theorem timeRemaining_never_negative (ops : list TimerOp) (a : App) :
  0 ≤ timeRemaining (timerState (state a)) →
  durations_nonnegative ops →
  0 ≤ timeRemaining (timerState (state (timer_run ops a))).
Proof.
  revert a. induction ops as [|op ops IH]; intros a Ha Hops; simpl; [done|].
  apply Forall_cons in Hops as [Hop Hops].
  apply IH; [|done]. by apply timer_step_nonnegative.
Qed.

(** X19.  [pause()] freezes a consistent timer: while it is paused no
    tick arrives, however long the pause.  [start()] then resumes, on a
    single new tick source, from the seconds that remained at the pause
    when some remained, and from the preset 300 when none did. *)
Theorem pause_freezes_and_start_resumes (a : App) (n : nat) :
  timer_consistent a →
  timer_run (OpPause :: replicate n OpTick) a = pauseTimer a
  ∧ timeRemaining
      (timerState (state (timer_run (OpPause :: replicate n OpTick ++ [OpStart]) a)))
    = (if timeRemaining (timerState (state a)) <=? 0 then 300
       else timeRemaining (timerState (state a)))
  ∧ isRunning
      (timerState (state (timer_run (OpPause :: replicate n OpTick ++ [OpStart]) a)))
    = true
  ∧ active_tick_sources
      (timer_run (OpPause :: replicate n OpTick ++ [OpStart]) a) = 1%nat.
Proof.
  intros Hc.
  pose proof (timer_step_consistent a OpPause Hc) as Hp. simpl in Hp.
  assert (timer_consistent (pauseTimer a)) as Hpc by (apply Hp; done).
  assert (intervals (browser (pauseTimer a)) = []) as Hnone.
  { destruct Hpc as [Hpc _]. unfold pauseTimer in *. simpl in *. tauto. }
  assert (timer_run (OpPause :: replicate n OpTick) a = pauseTimer a) as Hfrozen.
  { induction n as [|n IH]; [done|].
    rewrite replicate_S_end, app_comm_cons, timer_run_snoc, IH.
    cbn [timer_step]. by rewrite Hnone. }
  split; [done|].
  rewrite app_comm_cons, timer_run_snoc, Hfrozen. cbn [timer_step].
  assert (timeRemaining (timerState (state (pauseTimer a)))
          = timeRemaining (timerState (state a))) as Hrem.
  { unfold pauseTimer. destruct (interval _) as [h|]; [|done].
    by destruct (h =? 0)%nat. }
  revert Hrem Hnone. generalize (pauseTimer a). intros p Hrem Hnone.
  unfold startTimer, active_tick_sources. rewrite Hrem.
  destruct (timeRemaining (timerState (state a)) <=? 0);
    simpl; by rewrite Hnone.
Qed.

(** ** Timer display *)

Lemma padStart2_two_digits (n : Z) :
  0 ≤ n < 100 →
  Text.padStart2 (Text.toString n)
  = String (digit_char (n / 10)) (String (digit_char (n mod 10)) "").
Proof.
  intros Hn. rewrite <- (Z2Nat.id n) by lia.
  assert (Z.to_nat n < 100)%nat as Hk by lia.
  clear Hn. revert Hk. generalize (Z.to_nat n). intros k Hk.
  do 100 (destruct k as [|k]; [by vm_compute|]). lia.
Qed.

Lemma digit_char_inj (d e : Z) :
  0 ≤ d < 10 → 0 ≤ e < 10 → digit_char d = digit_char e → d = e.
Proof.
  intros Hd He Heq. unfold digit_char in Heq.
  apply (f_equal N_of_ascii) in Heq.
  rewrite !N_ascii_embedding in Heq by lia. lia.
Qed.

(** X20.  For a remainder under 100 minutes the timer display is five
    characters, two digits of minutes, a colon and two digits of seconds,
    and different remainders are displayed differently. *)
Theorem timeString_format (t : Z) :
  0 ≤ t < 6000 →
  timeString t
  = string_of_list_ascii
      [digit_char (t / 60 / 10); digit_char ((t / 60) mod 10); ":"%char;
       digit_char (t mod 60 / 10); digit_char ((t mod 60) mod 10)]
  ∧ (∀ u, 0 ≤ u < 6000 → timeString u = timeString t → u = t).
Proof.
  assert (∀ v, 0 ≤ v < 6000 →
            timeString v
            = string_of_list_ascii
                [digit_char (v / 60 / 10); digit_char ((v / 60) mod 10);
                 ":"%char;
                 digit_char (v mod 60 / 10); digit_char ((v mod 60) mod 10)])
    as Hformat.
  { intros v Hv. unfold timeString.
    rewrite Z.rem_mod_nonneg by lia.
    rewrite !padStart2_two_digits; [done| |].
    - pose proof (Z.mod_pos_bound v 60). lia.
    - split; [apply Z.div_pos; lia|]. apply Z.div_lt_upper_bound; lia. }
  intros Ht. split; [by apply Hformat|].
  intros u Hu Heq. rewrite (Hformat u Hu), (Hformat t Ht) in Heq.
  simpl in Heq. injection Heq as H1 H2 H3 H4.
  pose proof (Z.mod_pos_bound t 60). pose proof (Z.mod_pos_bound u 60).
  assert (0 ≤ t / 60 < 100) by
    (split; [apply Z.div_pos; lia | apply Z.div_lt_upper_bound; lia]).
  assert (0 ≤ u / 60 < 100) by
    (split; [apply Z.div_pos; lia | apply Z.div_lt_upper_bound; lia]).
  apply digit_char_inj in H1, H2, H3, H4;
    try (split; [apply Z.div_pos; lia | apply Z.div_lt_upper_bound; lia]);
    try (apply Z.mod_pos_bound; lia).
  rewrite (Z.div_mod t 60), (Z.div_mod u 60) by lia.
  rewrite (Z.div_mod (t / 60) 10), (Z.div_mod (u / 60) 10) by lia.
  rewrite (Z.div_mod (t mod 60) 10), (Z.div_mod (u mod 60) 10) by lia.
  by rewrite H1, H2, H3, H4.
Qed.

(** ** Recipe modal *)

(** X21.  Whatever the lookup returns, [showRecipeModal] leaves
    [this.state], the visible container and the scheduled intervals
    alone, and it does exactly one of two things.  Either it opens the
    modal on the first record returned, which becomes the current recipe,
    and shows no toast; or it shows the failure toast, once, and leaves
    the modal as it was.  In the second case the current recipe is
    unchanged, except when a record was found that has no instructions:
    that record has already become the current recipe though the modal did
    not open. *)
Theorem showRecipeModal_outcomes (out : DetailOutcome) (p : Page) :
  state (pageApp (showRecipeModal out p)) = state (pageApp p)
  ∧ screen (browser (pageApp (showRecipeModal out p)))
    = screen (browser (pageApp p))
  ∧ intervals (browser (pageApp (showRecipeModal out p)))
    = intervals (browser (pageApp p))
  ∧ ((modalOpen (showRecipeModal out p) = true
      ∧ toasts (browser (pageApp (showRecipeModal out p)))
        = toasts (browser (pageApp p))
      ∧ ∃ r rest,
          out = DetailResponse true (DetailJsonObject (DetailArray (r :: rest)))
          ∧ strInstructions r ≠ None
          ∧ currentRecipe (pageApp (showRecipeModal out p)) = Some (summary r))
     ∨ (modalOpen (showRecipeModal out p) = modalOpen p
        ∧ toasts (browser (pageApp (showRecipeModal out p)))
          = toasts (browser (pageApp p)) ++ [detail_failed_message]
        ∧ (currentRecipe (pageApp (showRecipeModal out p))
           = currentRecipe (pageApp p)
           ∨ ∃ r rest,
               out = DetailResponse true
                       (DetailJsonObject (DetailArray (r :: rest)))
               ∧ strInstructions r = None
               ∧ currentRecipe (pageApp (showRecipeModal out p))
                 = Some (summary r)))).
Proof.
  destruct out as [|[] [| |[| |[|r rest]]]]; simpl;
    try (repeat split; right; repeat split; by left).
  unfold renderRecipeModal_throws.
  destruct (strInstructions r) as [text|] eqn:Htext; simpl.
  - repeat split. left. repeat split. exists r, rest.
    by rewrite Htext.
  - repeat split. right. repeat split. right. by exists r, rest.
Qed.

(** X22.  The favorite button follows the modal: after the modal has
    opened on a record, [toggleFavorite] flips that record's identifier in
    the favorites; after [closeModal] it does nothing. *)
Theorem favorite_follows_modal (p : Page) (r : DetailRecipe)
  (rest : list DetailRecipe) :
  strInstructions r ≠ None →
  favorites
    (state
       (toggleFavorite
          (pageApp
             (showRecipeModal
                (DetailResponse true (DetailJsonObject (DetailArray (r :: rest))))
                p))))
  = (if bool_decide (idMeal (summary r) ∈ favorites (state (pageApp p)))
     then favorites (state (pageApp p)) ∖ {[idMeal (summary r)]}
     else {[idMeal (summary r)]} ∪ favorites (state (pageApp p)))
  ∧ toggleFavorite
      (pageApp
         (closeModal
            (showRecipeModal
               (DetailResponse true (DetailJsonObject (DetailArray (r :: rest))))
               p)))
    = pageApp
        (closeModal
           (showRecipeModal
              (DetailResponse true (DetailJsonObject (DetailArray (r :: rest))))
              p)).
Proof.
  intros Htext. split; [|done].
  simpl. unfold renderRecipeModal_throws.
  destruct (strInstructions r); [|done]. simpl.
  by rewrite (toggleFavorite_favorites _ (summary r)).
Qed.

Lemma append_empty_r (s t : string) : String.append s t = "" → t = "".
Proof. destruct s; [done|discriminate]. Qed.

Lemma modalIngredientLine_Some (pair : option string * option string) :
  match modalIngredientLine pair with
  | Some line =>
      line ≠ ""
      ∧ ∃ ingredient, pair.1 = Some ingredient ∧ Str.trim ingredient ≠ ""
  | None =>
      ∀ ingredient, pair.1 = Some ingredient → Str.trim ingredient = ""
  end.
Proof.
  unfold modalIngredientLine. destruct pair as [[ingredient|] measure]; simpl;
    [|done].
  destruct (Str.truthy ingredient) eqn:Hi; simpl.
  - destruct (Str.truthy (Str.trim ingredient)) eqn:Ht.
    + apply StrFacts.truthy_true in Ht. split; [|by exists ingredient].
      by intros Hline%append_empty_r.
    + intros ? [= <-]. by destruct (Str.trim ingredient).
  - intros ? [= <-]. by destruct ingredient.
Qed.

(** X23.  The modal lists at most 20 ingredient lines, none of them
    empty: one for each of the first 20 ingredient/measure pairs whose
    ingredient is present and not blank, and none for the others. *)
Theorem modalIngredients_lines (r : DetailRecipe) :
  (length (modalIngredients r) ≤ 20)%nat
  ∧ Forall (fun line => line ≠ "") (modalIngredients r)
  ∧ length (modalIngredients r)
    = length
        (List.filter
           (fun pair : option string * option string =>
              match pair.1 with
              | Some ingredient => Str.truthy (Str.trim ingredient)
              | None => false
              end)
           (take 20 (ingredientPairs r))).
Proof.
  unfold modalIngredients.
  assert (length (take 20 (ingredientPairs r)) ≤ 20)%nat as Hlen
    by (rewrite length_take; lia).
  revert Hlen. generalize (take 20 (ingredientPairs r)). intros pairs Hlen.
  assert (Forall (fun line => line ≠ "") (omap modalIngredientLine pairs)
          ∧ length (omap modalIngredientLine pairs)
            = length
                (List.filter
                   (fun pair : option string * option string =>
                      match pair.1 with
                      | Some ingredient => Str.truthy (Str.trim ingredient)
                      | None => false
                      end) pairs)) as [Hne Hcount].
  { clear Hlen. induction pairs as [|pair pairs [IH1 IH2]]; simpl; [done|].
    pose proof (modalIngredientLine_Some pair) as Hline.
    destruct (modalIngredientLine pair) as [line|].
    - destruct Hline as (Hline & ingredient & -> & Hi).
      rewrite (proj2 (StrFacts.truthy_true _) Hi). simpl.
      split; [by constructor|by f_equal].
    - destruct pair.1 as [ingredient|]; [|done].
      by rewrite (Hline ingredient eq_refl). }
  split; [|done]. rewrite Hcount.
  etrans; [|exact Hlen]. apply sublist_length, bool_filter_sublist.
Qed.

(** *** Instruction steps *)

Lemma split_lines_chars_no_line_feed (n : nat) (s cur : list ascii) :
  (length s ≤ n)%nat →
  "010"%char ∉ cur →
  Forall (fun line => "010"%char ∉ line) (Text.split_lines_chars cur s).
Proof.
  revert s cur. induction n as [|n IH]; intros s cur Hlen Hcur.
  - destruct s; [|simpl in Hlen; lia]. simpl. constructor; [|done].
    by rewrite list_elem_of_In, <- in_rev, <- list_elem_of_In.
  - assert ("010"%char ∉ rev cur) as Hrev
      by by rewrite list_elem_of_In, <- in_rev, <- list_elem_of_In.
    destruct s as [|c rest]; simpl; [by constructor|].
    simpl in Hlen.
    case_bool_decide as Hc.
    { constructor; [done|]. apply IH; [lia|]. apply not_elem_of_nil. }
    assert ("010"%char ∉ c :: cur) as Hcur'.
    { apply not_elem_of_cons. split; [congruence|done]. }
    destruct rest as [|d rest'].
    { apply IH; [simpl; lia|done]. }
    destruct (bool_decide (c = "013"%char) && bool_decide (d = "010"%char)).
    + constructor; [done|]. apply IH; [simpl in *; lia|].
      apply not_elem_of_nil.
    + apply IH; [simpl in *; lia|done].
Qed.

Lemma imap_numbering {A B} (g : A → B) (offset : nat) (l : list A) :
  map fst (imap (fun index x => ((index + offset)%nat, g x)) l)
  = seq offset (length l).
Proof.
  revert offset. induction l as [|x l IH]; intros offset; [done|].
  rewrite imap_cons. simpl. f_equal.
  rewrite <- (IH (S offset)). f_equal.
  apply imap_ext. intros i y _. simpl. f_equal. lia.
Qed.

(** X24.  Whatever the engine's [trim] does, the instruction steps are
    numbered 1, 2, 3, ... without gaps and no step is empty.  When [trim]
    is idempotent every step is trimmed, and when [trim] returns only
    characters of its argument no step contains a line feed. *)
Theorem instructionSteps_numbered (trim : string → string)
  (instructions : string) :
  map fst (instructionSteps trim instructions)
  = seq 1 (length (instructionSteps trim instructions))
  ∧ Forall (fun step : nat * string => step.2 ≠ "")
           (instructionSteps trim instructions)
  ∧ ((∀ s, trim (trim s) = trim s) →
     Forall (fun step : nat * string => trim step.2 = step.2)
            (instructionSteps trim instructions))
  ∧ ((∀ s c, c ∈ list_ascii_of_string (trim s) → c ∈ list_ascii_of_string s) →
     Forall (fun step : nat * string =>
               "010"%char ∉ list_ascii_of_string step.2)
            (instructionSteps trim instructions)).
Proof.
  assert (∀ step : nat * string,
            step ∈ instructionSteps trim instructions →
            ∃ line, step.2 = trim line ∧ trim line ≠ ""
                    ∧ "010"%char ∉ list_ascii_of_string line) as Hstep.
  { intros [i text] Hin. unfold instructionSteps in Hin. simpl.
    apply list_elem_of_lookup in Hin as [k Hk].
    rewrite list_lookup_imap in Hk.
    destruct (List.filter _ _ !! k) as [line|] eqn:Hline; [|done].
    simpl in Hk. injection Hk as _ <-.
    apply list_elem_of_lookup_2, bool_filter_elem in Hline as [Hin Hne].
    exists line. split; [done|]. split; [by apply StrFacts.truthy_true|].
    unfold Text.split_lines in Hin.
    apply list_elem_of_fmap in Hin as (chars & -> & Hchars).
    rewrite list_ascii_of_string_of_list_ascii.
    pose proof (split_lines_chars_no_line_feed _
                  (list_ascii_of_string instructions) [] (le_n _)
                  (not_elem_of_nil _)) as Hall.
    by apply (proj1 (Forall_forall _ _) Hall chars Hchars). }
  split; [|split; [|split]].
  - unfold instructionSteps. rewrite imap_numbering. by rewrite length_imap.
  - apply Forall_forall. intros step (line & -> & Hne & _)%Hstep. done.
  - intros Hidem. apply Forall_forall.
    intros step (line & -> & _)%Hstep. apply Hidem.
  - intros Hsub. apply Forall_forall.
    intros step (line & -> & _ & Hlf)%Hstep Hin. by apply Hlf, Hsub.
Qed.

(** ** The React variant *)

(** X25.  The estimated cooking time of the React recipe card is always
    between 15 and 120 minutes; it is five minutes per ingredient for 3 to
    24 ingredients, and 30 minutes for a recipe with no ingredient list or
    an empty one. *)
Theorem estimatedTime_bounds (ingredients : option (list string)) :
  15 ≤ estimatedTime ingredients ≤ 120
  ∧ match ingredients with
    | None | Some [] => estimatedTime ingredients = 30
    | Some (i :: l) =>
        estimatedTime ingredients
        = Z.min (Z.max (5 * Z.of_nat (length (i :: l))) 15) 120
    end.
Proof.
  unfold estimatedTime. destruct ingredients as [[|i l]|]; simpl length.
  - by vm_compute.
  - assert ((Z.of_nat (S (length l)) * 5 =? 0) = false) as ->
      by (apply Z.eqb_neq; lia).
    split; lia.
  - by vm_compute.
Qed.

Lemma dedup_from_app (seen : gset string) (p q : list RawRecipe) :
  dedup_from seen (p ++ q)
  = dedup_from seen p ++ dedup_from (seen ∪ list_to_set (map idMeal p)) q.
Proof.
  revert seen. induction p as [|r p IH]; intros seen; simpl.
  - by rewrite (right_id_L ∅ (∪)).
  - case_bool_decide as Hr.
    + rewrite IH. do 2 f_equal. apply set_eq. intros x.
      rewrite !elem_of_union, elem_of_singleton.
      split; [tauto|]. intros [?|[->|?]]; tauto.
    + simpl. rewrite IH. do 3 f_equal. apply set_eq. intros x.
      rewrite !elem_of_union. tauto.
Qed.

Lemma deduplicateRecipes_snoc (l : list RawRecipe) (r : RawRecipe) :
  deduplicateRecipes (l ++ [r])
  = deduplicateRecipes l
    ++ (if bool_decide (idMeal r ∈ map idMeal l) then [] else [r]).
Proof.
  unfold deduplicateRecipes. rewrite dedup_from_app. f_equal. simpl.
  assert (idMeal r ∈ (∅ ∪ list_to_set (map idMeal l) : gset string)
          ↔ idMeal r ∈ map idMeal l) as Hmem.
  { rewrite elem_of_union, elem_of_list_to_set.
    split; [|by right]. intros [Hx|Hx]; [|done].
    by apply elem_of_empty in Hx. }
  case_bool_decide as H1; case_bool_decide as H2; tauto.
Qed.

Lemma Map_set_keys k v (m : list (string * RawRecipe)) :
  map fst (Map_set k v m)
  = if bool_decide (k ∈ map fst m) then map fst m else map fst m ++ [k].
Proof.
  induction m as [|[k' v'] m IH]; simpl; [done|].
  destruct (decide (k' = k)) as [->|Hne].
  - rewrite (bool_decide_eq_true_2 (k = k)) by done.
    rewrite (bool_decide_eq_true_2 (k ∈ k :: map fst m)) by by left. done.
  - rewrite (bool_decide_eq_false_2 (k' = k)) by done. simpl. rewrite IH.
    destruct (decide (k ∈ map fst m)) as [Hin|Hin].
    + rewrite (bool_decide_eq_true_2 (k ∈ map fst m)) by done.
      rewrite (bool_decide_eq_true_2 (k ∈ k' :: map fst m)) by by right. done.
    + rewrite (bool_decide_eq_false_2 (k ∈ map fst m)) by done.
      rewrite (bool_decide_eq_false_2 (k ∈ k' :: map fst m)); [done|].
      apply not_elem_of_cons. split; [congruence|done].
Qed.

Lemma Map_set_entries k v (m : list (string * RawRecipe)) k' v' :
  NoDup (map fst m) →
  (k', v') ∈ Map_set k v m →
  (k' = k ∧ v' = v) ∨ (k' ≠ k ∧ (k', v') ∈ m).
Proof.
  induction m as [|[k0 v0] m IH]; simpl; intros Hnd.
  - intros [= -> ->]%list_elem_of_singleton. by left.
  - apply NoDup_cons in Hnd as [Hk0 Hnd].
    destruct (decide (k0 = k)) as [->|Hk].
    + rewrite (bool_decide_eq_true_2 (k = k)) by done.
      intros [[= -> ->]|Hin]%elem_of_cons; [by left|].
      right. split; [|by right].
      intros ->. apply Hk0.
      apply list_elem_of_fmap. by exists (k, v').
    + rewrite (bool_decide_eq_false_2 (k0 = k)) by done.
      intros [[= -> ->]|Hin]%elem_of_cons.
      * right. split; [congruence|by left].
      * destruct (IH Hnd Hin) as [?|[? ?]]; [by left|].
        right. split; [done|by right].
Qed.

Lemma last_with_id_snoc (id : string) (l : list RawRecipe) (r : RawRecipe) :
  last_with_id id (l ++ [r])
  = if bool_decide (idMeal r = id) then Some r else last_with_id id l.
Proof. unfold last_with_id, first_with_id. by rewrite rev_unit. Qed.

Lemma Map_of_entries_spec (l : list RawRecipe) :
  map fst (Map_of_entries (map (fun r => (idMeal r, r)) l))
  = map idMeal (deduplicateRecipes l)
  ∧ ∀ k v, (k, v) ∈ Map_of_entries (map (fun r => (idMeal r, r)) l) →
           idMeal v = k ∧ last_with_id k l = Some v.
Proof.
  induction l as [|r l [IHk IHv]] using rev_ind.
  - split; [done|]. by intros k v ?%elem_of_nil.
  - unfold Map_of_entries in *. rewrite map_app, fold_left_app. simpl.
    assert (NoDup (map fst
                     (fold_left (fun m e => Map_set e.1 e.2 m)
                                (map (fun r => (idMeal r, r)) l) [])))
      as Hnd by (rewrite IHk; apply dedup_from_NoDup).
    split.
    + rewrite Map_set_keys, IHk, deduplicateRecipes_snoc, map_app.
      assert (idMeal r ∈ map idMeal (deduplicateRecipes l)
              ↔ idMeal r ∈ map idMeal l) as Hmem
        by apply deduplicateRecipes_ids.
      case_bool_decide as H1; case_bool_decide as H2; try tauto;
        by rewrite ?app_nil_r.
    + intros k v Hin. rewrite last_with_id_snoc.
      apply (Map_set_entries _ _ _ _ _ Hnd) in Hin as [[-> ->]|[Hne Hin]].
      * by rewrite bool_decide_eq_true_2.
      * destruct (IHv k v Hin) as [Hid Hlast]. split; [done|].
        rewrite bool_decide_eq_false_2; [done|]. congruence.
Qed.

(** X26.  The React variant deduplicates through a [Map] keyed by
    identifier.  It keeps the same identifiers in the same order as
    [deduplicateRecipes], but the record it keeps for an identifier is
    the last one fetched with it, where [deduplicateRecipes] keeps the
    first. *)
Theorem uniqueRecipes_last_seen_wins (l : list RawRecipe) :
  map idMeal (uniqueRecipes l) = map idMeal (deduplicateRecipes l)
  ∧ (∀ r, r ∈ uniqueRecipes l → last_with_id (idMeal r) l = Some r)
  ∧ (∀ r, r ∈ deduplicateRecipes l → first_with_id (idMeal r) l = Some r).
Proof.
  destruct (Map_of_entries_spec l) as [Hkeys Hvals].
  assert (∀ r, r ∈ uniqueRecipes l →
               ∃ k, (k, r) ∈ Map_of_entries (map (fun r => (idMeal r, r)) l))
    as Hentry.
  { intros r (e & -> & He)%list_elem_of_fmap. exists e.1. by destruct e. }
  split; [|split].
  - unfold uniqueRecipes. rewrite <- Hkeys.
    assert (∀ m : list (string * RawRecipe),
              (∀ k v, (k, v) ∈ m → idMeal v = k) →
              map idMeal (map snd m) = map fst m) as Hsame.
    { induction m as [|[k v] m IH]; intros Hm; simpl; [done|].
      rewrite (Hm k v) by by left. f_equal. apply IH.
      intros k' v' Hin. apply Hm. by right. }
    apply Hsame. intros k v Hin. by destruct (Hvals k v Hin).
  - intros r Hr. destruct (Hentry r Hr) as [k Hk].
    destruct (Hvals k r Hk) as [<- Hlast]. done.
  - intros r Hr. unfold deduplicateRecipes in Hr.
    by apply dedup_from_first in Hr as [_ ?].
Qed.

(** ** Removing the last ingredient *)


(** * Worked scenarios for the further properties *)

Lemma handleSearchKeydown_enter_witness :
  (handleSearchKeydown Str.toLowerCase Str.trim KeyEnter
     (mkSearchBox "  Garlic " ["garlic"]) Scenario.app_chicken_rice).1
  = addIngredient_with Str.toLowerCase Str.trim "  Garlic "
      Scenario.app_chicken_rice
  ∧ (handleSearchKeydown Str.toLowerCase Str.trim KeyEnter
       (mkSearchBox "  Garlic " ["garlic"]) Scenario.app_chicken_rice).2
    = mkSearchBox "" [].
Proof.
  assert (∀ v, Str.trim (Str.toLowerCase (Str.trim v))
               = Str.trim (Str.toLowerCase v)) as Htrim
    by exact normalize_trim.
  assert (∀ v, Str.trim v = "" → Str.trim (Str.toLowerCase v) = "") as Hblank
    by exact normalize_blank.
  exact (handleSearchKeydown_enter_is_addIngredient Str.toLowerCase Str.trim
           (mkSearchBox "  Garlic " ["garlic"]) Scenario.app_chicken_rice
           Htrim Hblank).
Defined.

Lemma addIngredient_removeIngredient_round_trip_witness :
  selectedIngredients
    (state (removeIngredient "garlic"
              (addIngredient " Garlic" Scenario.app_chicken_rice).1).1)
  = ["chicken"; "rice"].
Proof.
  assert (normalize " Garlic" ≠ "") as Hne by discriminate.
  assert (normalize " Garlic"
          ∉ selectedIngredients (state Scenario.app_chicken_rice)) as Hnin.
  { apply (bool_decide_unpack _). by vm_compute. }
  exact (addIngredient_removeIngredient_round_trip " Garlic"
           Scenario.app_chicken_rice Hne Hnin).
Defined.

Lemma applyFilters_sound_witness :
  ∃ c, strCategory Scenario.recipeA = Some c ∧ c ≠ ""
       ∧ Str.toLowerCase c = Str.toLowerCase "chicken".
Proof.
  assert (mkAnnotated Scenario.recipeA ["chicken"]
          ∈ filteredRecipes
              (state (applyFilters Scenario.rand_low Scenario.app_filtered)))
    as Hin.
  { apply (bool_decide_unpack _). by vm_compute. }
  destruct (applyFilters_sound Scenario.rand_low Scenario.app_filtered _ Hin)
    as [Hcategory _].
  apply Hcategory. discriminate.
Defined.

Lemma handleFilterChange_ignores_case_witness :
  filteredRecipes
    (state (handleFilterChange FilterCategory "CHICKEN" Scenario.rand_low
              Scenario.app_filtered))
  = filteredRecipes
      (state (handleFilterChange FilterCategory "chicken" Scenario.rand_low
                Scenario.app_filtered))
  ∧ screen
      (browser (handleFilterChange FilterCategory "CHICKEN" Scenario.rand_low
                  Scenario.app_filtered))
    = screen
        (browser (handleFilterChange FilterCategory "chicken" Scenario.rand_low
                    Scenario.app_filtered)).
Proof.
  assert (FilterCategory ≠ FilterTime) as Hkind by discriminate.
  assert (Str.toLowerCase "CHICKEN" = Str.toLowerCase "chicken") as Hlow
    by reflexivity.
  exact (handleFilterChange_ignores_case FilterCategory "CHICKEN" "chicken"
           Scenario.rand_low Scenario.app_filtered Hkind Hlow).
Defined.

Lemma search_without_results_witness :
  error
    (state (searchRecipes (fun _ => Response true (JsonObject MealsNull))
              Scenario.rand_low Scenario.app_chicken_rice)) = None
  ∧ screen
      (browser (searchRecipes (fun _ => Response true (JsonObject MealsNull))
                  Scenario.rand_low Scenario.app_chicken_rice)) = ErrorScreen.
Proof.
  assert (selectedIngredients (state Scenario.app_chicken_rice) ≠ [])
    as Hne by discriminate.
  assert (Promise_all
            (searchPromises (fun _ => Response true (JsonObject MealsNull))
               (selectedIngredients (state Scenario.app_chicken_rice)))
          = Fulfilled [[]; []]) as Hall by reflexivity.
  destruct (search_without_results_shows_error_container
              (fun _ => Response true (JsonObject MealsNull))
              Scenario.rand_low Scenario.app_chicken_rice _ Hne Hall)
    as (Herr & _ & _ & Hnone).
  split; [exact Herr|]. by destruct (Hnone eq_refl) as (_ & _ & ?).
Defined.

Lemma search_ids_independent_of_selection_order_witness :
  map (fun r => idMeal (recipe r))
      (allRecipes
         (state (searchRecipes Scenario.catalog_up Scenario.rand_low
                   Scenario.app_chicken_rice)))
  ≡ₚ map (fun r => idMeal (recipe r))
         (allRecipes
            (state (searchRecipes Scenario.catalog_up Scenario.rand_high
                      (with_state (set_selectedIngredients ["rice"; "chicken"])
                                  Scenario.app_chicken_rice)))).
Proof.
  assert (selectedIngredients (state Scenario.app_chicken_rice) ≠ [])
    as Hne by discriminate.
  assert (selectedIngredients (state Scenario.app_chicken_rice)
          ≡ₚ selectedIngredients
               (state (with_state (set_selectedIngredients ["rice"; "chicken"])
                                  Scenario.app_chicken_rice))) as Hperm
    by apply perm_swap.
  assert (∀ i, i ∈ selectedIngredients (state Scenario.app_chicken_rice) →
               fetchRecipesByIngredient Scenario.catalog_up i
               = Fulfilled (if bool_decide (i = "chicken")
                            then [Scenario.recipeA]
                            else [Scenario.recipeA; Scenario.recipeB]))
    as Hfound.
  { intros i _. unfold fetchRecipesByIngredient, Scenario.catalog_up.
    by case_bool_decide. }
  exact (search_ids_independent_of_selection_order Scenario.catalog_up
           Scenario.rand_low Scenario.rand_high Scenario.app_chicken_rice _ _
           Hne Hperm Hfound).
Defined.

Lemma stale_search_overwrites_newer_witness :
  ∃ final : App,
    selectedIngredients (state final) = ["chicken"; "rice"]
    ∧ allRecipes (state final)
      = [mkAnnotated Scenario.recipeA ["chicken"]].
Proof.
  assert (normalize "Chicken" ≠ "") as Hx by discriminate.
  assert (normalize "rice" ≠ "") as Hy by discriminate.
  assert (normalize "Chicken" ∉ selectedIngredients (state initial_app))
    as Hxn by apply not_elem_of_nil.
  assert (normalize "rice" ∉ selectedIngredients (state initial_app))
    as Hyn by apply not_elem_of_nil.
  assert (normalize "Chicken" ≠ normalize "rice") as Hxy by discriminate.
  assert (is_rejected
            (Promise_all
               (searchPromises Scenario.catalog_up
                  (selectedIngredients (state initial_app)
                   ++ [normalize "Chicken"]))) = false) as Hok by reflexivity.
  destruct (stale_search_overwrites_newer Scenario.catalog_up
              Scenario.rand_low Scenario.rand_high initial_app
              "Chicken" "rice" Hx Hy Hxn Hyn Hxy Hok)
    as (_ & _ & Hsel & Hall).
  eexists. split; [exact Hsel|]. rewrite Hall. reflexivity.
Defined.

Lemma single_tick_source_witness :
  active_tick_sources
    (timer_run [OpStart; OpPause; OpStart; OpTick; OpReset; OpSetDuration 2;
                OpStart; OpTick; OpTick; OpTick; OpStart] initial_app)
  = 1%nat.
Proof.
  assert (timer_consistent initial_app) as Hc by (by vm_compute).
  assert (start_only_when_stopped
            [OpStart; OpPause; OpStart; OpTick; OpReset; OpSetDuration 2;
             OpStart; OpTick; OpTick; OpTick; OpStart] initial_app = true)
    as Hguard by reflexivity.
  exact (proj2 (single_tick_source_when_start_is_guarded _ initial_app
                  Hc Hguard)).
Defined.

Lemma timeRemaining_never_negative_witness :
  0 ≤ timeRemaining
        (timerState
           (state (timer_run [OpSetDuration 2; OpStart; OpTick; OpTick; OpTick;
                              OpTick; OpStart; OpStart; OpReset; OpTick]
                             initial_app))).
Proof.
  assert (0 ≤ timeRemaining (timerState (state initial_app))) as H0 by done.
  assert (durations_nonnegative
            [OpSetDuration 2; OpStart; OpTick; OpTick; OpTick; OpTick;
             OpStart; OpStart; OpReset; OpTick]) as Hops.
  { unfold durations_nonnegative.
    repeat (apply Forall_cons; split; [first [lia|exact I]|]).
    constructor. }
  exact (timeRemaining_never_negative _ initial_app H0 Hops).
Defined.

Lemma pause_freezes_and_start_resumes_witness :
  timeRemaining
    (timerState
       (state (timer_run (OpPause :: replicate 5 OpTick ++ [OpStart])
                 (timer_run [OpSetDuration 90; OpStart; OpTick] initial_app))))
  = 89
  ∧ timeRemaining
      (timerState
         (state (timer_run (OpPause :: replicate 5 OpTick ++ [OpStart])
                   (timer_run [OpSetDuration 1; OpStart; OpTick] initial_app))))
    = 300.
Proof.
  assert (timer_consistent
            (timer_run [OpSetDuration 90; OpStart; OpTick] initial_app))
    as Hc by (by vm_compute).
  assert (timer_consistent
            (timer_run [OpSetDuration 1; OpStart; OpTick] initial_app))
    as Hc0 by (by vm_compute).
  split.
  - exact (proj1 (proj2 (pause_freezes_and_start_resumes _ 5 Hc))).
  - exact (proj1 (proj2 (pause_freezes_and_start_resumes _ 5 Hc0))).
Defined.

Lemma timeString_format_witness : timeString 599 = "09:59".
Proof.
  assert (0 ≤ 599 < 6000) as Ht by lia.
  exact (proj1 (timeString_format 599 Ht)).
Defined.

Lemma favorite_follows_modal_witness :
  "52940"
  ∈ favorites
      (state
         (toggleFavorite
            (pageApp
               (showRecipeModal
                  (DetailResponse true
                     (DetailJsonObject
                        (DetailArray
                           [mkDetail Scenario.recipeA (Some "Mix.") [] None
                                     None])))
                  (mkPage initial_app false))))).
Proof.
  assert (strInstructions
            (mkDetail Scenario.recipeA (Some "Mix.") [] None None) ≠ None)
    as Htext by discriminate.
  rewrite (proj1 (favorite_follows_modal (mkPage initial_app false) _ []
                    Htext)).
  apply (bool_decide_unpack _). by vm_compute.
Defined.

